(** * EXIF metadata viewer page ([src/app/page.tsx])

    A shallow embedding of the [Home] component: the file-change handler
    with its metadata filter and GPS validity check, and the effect that
    creates and tears down the OpenLayers map.

    The libraries the component calls ([exifr.parse], [exifr.gps],
    [URL.createObjectURL], [fromLonLat]) are parameters of the development;
    React's part (state cells, refs, the dependency check of [useEffect],
    the order destroy-then-create) is written out as explicit state
    passing. *)

From Stdlib Require Import Floats.SpecFloat ZArith.
From stdpp Require Import gmap strings list fin_maps pretty.

(** ** JavaScript values *)

(** A JavaScript number: an IEEE 754 double, as sign, mantissa and exponent. *)
Abbreviation number := spec_float.

#[warnings="-register-all"]
Inductive JsValue : Type :=
| JUndefined
| JNull
| JBool (b : bool)
| JNumber (n : number)
| JString (s : string)
| JArray (l : list JsValue)
| JObject (l : list (string * JsValue)).

(** A plain object used as a record of tags: its own enumerable string keys. *)
Abbreviation JsObject := (gmap string JsValue).

(** [ToBoolean] on numbers: [+0], [-0] and [NaN] are falsy. *)
Definition ToBoolean (n : number) : bool :=
  match n with
  | S754_zero _ => false
  | S754_nan => false
  | S754_infinity _ => true
  | S754_finite _ _ _ => true
  end.

(** Truthiness of a property that may be missing ([undefined]). *)
Definition truthy (v : option number) : bool :=
  match v with
  | Some n => ToBoolean n
  | None => false
  end.

(** The numeric zeros. *)
Definition isZero (n : number) : bool :=
  match n with
  | S754_zero _ => true
  | _ => false
  end.

(** A property that is missing, or a numeric zero. *)
Definition missingOrZero (v : option number) : bool :=
  match v with
  | Some n => isZero n
  | None => true
  end.

(** The literals [0.5], [1] and [13] as doubles (53-bit mantissa). *)
Definition num_0_5 : number := S754_finite false 4503599627370496 (-53).
Definition num_1 : number := S754_finite false 4503599627370496 (-52).
Definition num_13 : number := S754_finite false 7318349394477056 (-49).

(** [Object.entries(o)]. *)
Definition entries (o : JsObject) : list (string * JsValue) := map_to_list o.

(** [Object.fromEntries(l)]: the pairs are defined on a fresh object in
    order, a later pair overwriting an earlier one with the same key. *)
Definition fromEntries (l : list (string * JsValue)) : JsObject :=
  foldl (λ o kv, <[kv.1 := kv.2]> o) ∅ l.

(** ** Metadata filter (lines 37-41) *)

(** [([key]) => key !== 'MakerNote' && key !== 'thumbnail'] *)
Definition keepEntry (kv : string * JsValue) : Prop :=
  kv.1 ≠ "MakerNote" ∧ kv.1 ≠ "thumbnail".

#[global] Instance keepEntry_dec kv : Decision (keepEntry kv).
Proof. unfold keepEntry. apply _. Defined.

(** [Object.fromEntries(Object.entries(allMetaData || {}).filter(...))],
    on the object. *)
Definition filterMetadata (o : JsObject) : JsObject :=
  fromEntries (filter keepEntry (entries o)).

(** [allMetaData || {}]: a null or undefined parser result reads as [{}]. *)
Definition orEmpty (allMetaData : option JsObject) : JsObject :=
  match allMetaData with
  | Some o => o
  | None => ∅
  end.

Definition filtered (allMetaData : option JsObject) : JsObject :=
  filterMetadata (orEmpty allMetaData).

(** ** GPS validity (lines 46-53) *)

(** What [exifr.gps] resolves to when it finds a GPS block; a coordinate
    it could not compute is [undefined]. *)
Record GpsOutput := {
  gps_latitude : option number;
  gps_longitude : option number
}.

(** The [gpsData] state. *)
Record GpsCoordinate := {
  latitude : number;
  longitude : number
}.

(** [gpsMetaData && gpsMetaData.latitude && gpsMetaData.longitude], and the
    object built when it holds. *)
Definition acceptGps (gpsMetaData : option GpsOutput) : option GpsCoordinate :=
  match gpsMetaData with
  | Some g =>
      match gps_latitude g, gps_longitude g with
      | Some lat, Some lon =>
          if ToBoolean lat && ToBoolean lon
          then Some {| latitude := lat; longitude := lon |}
          else None
      | _, _ => None
      end
  | None => None
  end.

(** ** OpenLayers objects *)

Record Icon := { anchor : list number; src : string }.
Record Style := { image : Icon }.
Record Feature := { geometry : list number; style : option Style }.
Record VectorSource := { features : list Feature }.
Inductive TileSource := OSM.
Inductive Layer :=
| TileLayer (source : TileSource)
| VectorLayer (source : VectorSource).
Record View := { center : list number; zoom : number }.

(** A DOM element, by identity. *)
Definition Element := nat.

(** An [ol/Map]: it renders while it has a target. *)
Record OlMap := {
  target : option Element;
  layers : list Layer;
  view : View
}.

(** [map.setTarget(t)] *)
Definition setTarget (t : option Element) (m : OlMap) : OlMap :=
  {| target := t; layers := layers m; view := view m |}.

Definition isLive (m : OlMap) : Prop := is_Some (target m).

#[global] Instance isLive_dec m : Decision (isLive m).
Proof. unfold isLive. apply _. Defined.

(** ** The page *)

Record Page := {
  (* useState *)
  metadata : JsObject;
  imageSrc : option string;
  gpsData : option GpsCoordinate;
  (* useRef *)
  mapRef : option Element;          (* mapRef.current *)
  mapInstance : option nat;         (* mapInstance.current, an address in [maps] *)
  (* the effect as React holds it *)
  depsChanged : bool;               (* [gpsData] is not the object the effect last ran for *)
  destroy : bool;                   (* the effect's last run returned its cleanup *)
  (* the browser *)
  maps : list OlMap;                (* every Map constructed so far, by address *)
  elements : nat;                   (* container elements created so far *)
  objectURLs : nat                  (* object URLs created so far *)
}.

(** The page after its first render: empty state, the effect has run once
    with [gpsData = null] and returned nothing. *)
Definition initialPage : Page := {|
  metadata := ∅; imageSrc := None; gpsData := None;
  mapRef := None; mapInstance := None;
  depsChanged := false; destroy := false;
  maps := []; elements := 0; objectURLs := 0
|}.

Definition liveMaps (p : Page) : list OlMap := filter isLive (maps p).

(** ** The handler's effects *)

Inductive Outcome (A : Type) : Type :=
| Returned (a : A)
| Thrown (err : JsValue).
Arguments Returned {A} a.
Arguments Thrown {A} err.

(** Calls that leave the component, in the order they are made. *)
Inductive Call :=
| CallCreateObjectURL
| CallParse
| CallGps
| CallConsoleLog
| CallConsoleError.

#[global] Instance Call_eq_dec : EqDecision Call.
Proof. solve_decision. Defined.

(** A stretch of the handler: it updates the page, makes calls, and
    returns or throws. *)
Definition Handler (A : Type) : Type := Page → Page * list Call * Outcome A.

Definition ret {A} (a : A) : Handler A := λ p, (p, [], Returned a).

Definition bind {A B} (m : Handler A) (k : A → Handler B) : Handler B :=
  λ p,
    match m p with
    | (p1, l1, Returned a) =>
        match k a p1 with
        | (p2, l2, r) => (p2, l1 ++ l2, r)
        end
    | (p1, l1, Thrown err) => (p1, l1, Thrown err)
    end.

Notation "'do' x <- m ; k" := (bind m (λ x, k))
  (at level 10, x name, m at level 100, k at level 200).
Notation "m ;; k" := (bind m (λ _, k))
  (at level 100, k at level 200, right associativity).

(** [try { m } catch (err) { h err }] *)
Definition tryCatch {A} (m : Handler A) (h : JsValue → Handler A) : Handler A :=
  λ p,
    match m p with
    | (p1, l1, Returned a) => (p1, l1, Returned a)
    | (p1, l1, Thrown err) =>
        match h err p1 with
        | (p2, l2, r) => (p2, l1 ++ l2, r)
        end
    end.

Definition call (c : Call) : Handler unit := λ p, (p, [c], Returned tt).

(** Writes to the cells of the page. *)
Definition withMetadata (v : JsObject) (p : Page) : Page :=
  {| metadata := v; imageSrc := imageSrc p; gpsData := gpsData p;
     mapRef := mapRef p; mapInstance := mapInstance p;
     depsChanged := depsChanged p; destroy := destroy p;
     maps := maps p; elements := elements p; objectURLs := objectURLs p |}.

Definition withImageSrc (v : option string) (p : Page) : Page :=
  {| metadata := metadata p; imageSrc := v; gpsData := gpsData p;
     mapRef := mapRef p; mapInstance := mapInstance p;
     depsChanged := depsChanged p; destroy := destroy p;
     maps := maps p; elements := elements p; objectURLs := objectURLs p |}.

(** [Object.is] between the [gpsData] held and the value being set: a
    literal [{latitude, longitude}] is a new object, identical to nothing
    held before; [null] is identical to [null]. *)
Definition sameGps (old new : option GpsCoordinate) : bool :=
  match old, new with
  | None, None => true
  | _, _ => false
  end.

(** Setting [gpsData] to a value that is not the one held makes the
    effect's dependency differ from the one it last ran for. *)
Definition withGpsData (v : option GpsCoordinate) (p : Page) : Page :=
  {| metadata := metadata p; imageSrc := imageSrc p; gpsData := v;
     mapRef := mapRef p; mapInstance := mapInstance p;
     depsChanged := depsChanged p || negb (sameGps (gpsData p) v);
     destroy := destroy p;
     maps := maps p; elements := elements p; objectURLs := objectURLs p |}.

Definition withObjectURLs (n : nat) (p : Page) : Page :=
  {| metadata := metadata p; imageSrc := imageSrc p; gpsData := gpsData p;
     mapRef := mapRef p; mapInstance := mapInstance p;
     depsChanged := depsChanged p; destroy := destroy p;
     maps := maps p; elements := elements p; objectURLs := n |}.

Definition setMetadata (v : JsObject) : Handler unit :=
  λ p, (withMetadata v p, [], Returned tt).

Definition setImageSrc (v : option string) : Handler unit :=
  λ p, (withImageSrc v p, [], Returned tt).

Definition setGpsData (v : option GpsCoordinate) : Handler unit :=
  λ p, (withGpsData v p, [], Returned tt).

Definition error_message : string := "Failed to read EXIF metadata".

(** [{ error: 'Failed to read EXIF metadata' }] *)
Definition errorIndicator : JsObject := {[ "error" := JString error_message ]}.

(** The [catch] block (lines 54-58). *)
Definition onParseFailure (err : JsValue) : Handler unit :=
  call CallConsoleError ;;
  setMetadata errorIndicator ;;
  setGpsData None.

Section Home.

(** The [File] objects of the browser, and the libraries the component
    calls on them. *)
Context {File : Type}.

(** [URL.createObjectURL(file)], given how many object URLs the document
    has created so far. *)
Variable createObjectURL : File → nat → string.

(** What [await exifr.parse(file, {tiff, gps, xmp, jfif})] and
    [await exifr.gps(file)] come to: a value or a rejection. *)
Variable exifr_parse : File → Outcome (option JsObject).
Variable exifr_gps : File → Outcome (option GpsOutput).

(** [fromLonLat] of [ol/proj]. *)
Variable fromLonLat : list number → list number.

Definition URL_createObjectURL (file : File) : Handler string :=
  λ p, (withObjectURLs (S (objectURLs p)) p,
        [CallCreateObjectURL],
        Returned (createObjectURL file (objectURLs p))).

Definition await_parse (file : File) : Handler (option JsObject) :=
  λ p, (p, [CallParse], exifr_parse file).

Definition await_gps (file : File) : Handler (option GpsOutput) :=
  λ p, (p, [CallGps], exifr_gps file).

(** A parse failure: the tag parser or the GPS extractor rejects. *)
Definition parseFailure (file : File) : Prop :=
  (∃ err, exifr_parse file = Thrown err) ∨ (∃ err, exifr_gps file = Thrown err).

(** *** [handleFileChange] (lines 23-59) *)

(** [e.target.files?.[0]] *)
Definition firstFile (files : option (list File)) : option File :=
  match files with
  | Some (file :: _) => Some file
  | _ => None
  end.

(** Lines 27-28, up to the [try]. *)
Definition fileIntake (file : File) : Handler unit :=
  do imageUrl <- URL_createObjectURL file;
  setImageSrc (Some imageUrl).

(** The body of the [try] (lines 31-53). *)
Definition extraction (file : File) : Handler unit :=
  do allMetaData <- await_parse file;
  call CallConsoleLog ;;
  do gpsMetaData <- await_gps file;
  setMetadata (filtered allMetaData) ;;
  match acceptGps gpsMetaData with
  | Some c => setGpsData (Some c)
  | None => setGpsData None
  end.

(** Lines 30-58: the [try] with its [catch]. *)
Definition parseAndShow (file : File) : Handler unit :=
  tryCatch (extraction file) onParseFailure.

Definition handleFileChange (files : option (list File)) : Handler unit :=
  match firstFile files with
  | None => ret tt                              (* if (!file) return *)
  | Some file => fileIntake file ;; parseAndShow file
  end.

(** *** The effect (lines 62-108) *)

Definition markerStyle : Style :=
  {| image := {| anchor := [num_0_5; num_1]; src := "/marker-icon.png" |} |}.

Definition marker (g : GpsCoordinate) : Feature :=
  {| geometry := fromLonLat [longitude g; latitude g];
     style := Some markerStyle |}.

(** [new Map({ target, layers: [tiles, vectorLayer], view })] *)
Definition newMap (g : GpsCoordinate) (el : Element) : OlMap :=
  {| target := Some el;
     layers := [ TileLayer OSM;
                 VectorLayer {| features := [marker g] |} ];
     view := {| center := fromLonLat [longitude g; latitude g];
                zoom := num_13 |} |}.

(** The cleanup the effect returns (lines 101-106). *)
Definition cleanup (p : Page) : Page :=
  match mapInstance p with
  | Some a =>
      {| metadata := metadata p; imageSrc := imageSrc p; gpsData := gpsData p;
         mapRef := mapRef p; mapInstance := None;
         depsChanged := depsChanged p; destroy := destroy p;
         maps := alter (setTarget None) a (maps p);
         elements := elements p; objectURLs := objectURLs p |}
  | None => p
  end.

(** The effect's body; [destroy] records whether it returned [cleanup]. *)
Definition effect (p : Page) : Page :=
  match gpsData p, mapRef p with
  | Some g, Some el =>
      {| metadata := metadata p; imageSrc := imageSrc p; gpsData := gpsData p;
         mapRef := mapRef p; mapInstance := Some (length (maps p));
         depsChanged := false; destroy := true;
         maps := maps p ++ [newMap g el];
         elements := elements p; objectURLs := objectURLs p |}
  | _, _ =>
      {| metadata := metadata p; imageSrc := imageSrc p; gpsData := gpsData p;
         mapRef := mapRef p; mapInstance := mapInstance p;
         depsChanged := false; destroy := false;
         maps := maps p;
         elements := elements p; objectURLs := objectURLs p |}
  end.

(** *** React's commit *)

(** [{gpsData && <div ref={mapRef} .../>}]: the container exists, and the
    ref points to it, exactly while [gpsData] is set. *)
Definition render (p : Page) : Page :=
  match gpsData p, mapRef p with
  | Some _, None =>
      {| metadata := metadata p; imageSrc := imageSrc p; gpsData := gpsData p;
         mapRef := Some (elements p); mapInstance := mapInstance p;
         depsChanged := depsChanged p; destroy := destroy p;
         maps := maps p;
         elements := S (elements p); objectURLs := objectURLs p |}
  | Some _, Some _ => p
  | None, _ =>
      {| metadata := metadata p; imageSrc := imageSrc p; gpsData := gpsData p;
         mapRef := None; mapInstance := mapInstance p;
         depsChanged := depsChanged p; destroy := destroy p;
         maps := maps p;
         elements := elements p; objectURLs := objectURLs p |}
  end.

(** The previous run's cleanup, when the dependency changed. *)
Definition runDestroy (p : Page) : Page :=
  if depsChanged p && destroy p then cleanup p else p.

(** The effect, when the dependency changed. *)
Definition runEffect (p : Page) : Page :=
  if depsChanged p then effect p else p.

Definition commit (p : Page) : Page := runEffect (runDestroy (render p)).

(** The component is removed: React runs the cleanup it holds. *)
Definition unmount (p : Page) : Page :=
  if destroy p then cleanup p else p.

(** *** Events *)

(** The page between two awaits runs nothing; an event is what runs in
    one piece: the handler up to its first [await], or the rest of it
    once the awaited calls have settled. *)
Inductive Event :=
| Change (files : option (list File))
| Settled (file : File).

Definition handled (ev : Event) (p : Page) : Page * list Call * Outcome unit :=
  match ev with
  | Change files =>
      match firstFile files with
      | None => ret tt p
      | Some file => fileIntake file p
      end
  | Settled file => parseAndShow file p
  end.

(** The states the page goes through on one event, in order: after the
    handler, after React has rendered, after the old cleanup, after the
    effect. *)
Definition instants (ev : Event) (p : Page) : list Page :=
  let h := (handled ev p).1.1 in
  [h; render h; runDestroy (render h); commit h].

Definition step (ev : Event) (p : Page) : Page := commit (handled ev p).1.1.

Definition run (evs : list Event) (p : Page) : Page :=
  foldl (λ q ev, step ev q) p evs.

(** One selection from the file input, carried through until it settles. *)
Definition selection (files : option (list File)) : list Event :=
  match firstFile files with
  | None => [Change files]
  | Some file => [Change files; Settled file]
  end.

Definition select (files : option (list File)) (p : Page) : Page :=
  run (selection files) p.

Inductive reachable : Page → Prop :=
| reachable_initial : reachable initialPage
| reachable_step ev p : reachable p → reachable (step ev p).

(** The selections of a list of files, one after the other. *)
Definition selectAll (fs : list File) (p : Page) : Page :=
  foldl (λ q file, select (Some [file]) q) p fs.

(** The extraction of [file] succeeds with the valid coordinate [c]. *)
Definition yieldsGps (file : File) (c : GpsCoordinate) : Prop :=
  ∃ o g, exifr_parse file = Returned o ∧ exifr_gps file = Returned g
         ∧ acceptGps g = Some c.

Definition torn (m : OlMap) : Prop := target m = None.

(** The page at rest, between two events: the effect has run for the
    current [gpsData]; with a coordinate, the container is mounted, the
    last map constructed is the one for that coordinate, bound to the
    container and held in [mapInstance], with its cleanup registered,
    and every earlier map is torn down; without one, nothing is mounted
    or held and every map is torn down. *)
Definition settled (p : Page) : Prop :=
  depsChanged p = false ∧
  match gpsData p with
  | Some g =>
      ∃ el old,
        mapRef p = Some el ∧ maps p = old ++ [newMap g el] ∧ Forall torn old
        ∧ mapInstance p = Some (length old) ∧ destroy p = true
  | None =>
      mapRef p = None ∧ mapInstance p = None ∧ destroy p = false
      ∧ Forall torn (maps p)
  end.

End Home.

(** ** A sample document

    Five files and what the libraries answer on them, to run the page on. *)

Module Sample.

Inductive File := photo | paris | nullIsland | plain | corrupt.

Definition createObjectURL (f : File) (n : nat) : string :=
  "blob:" +:+ pretty n.

Definition lat_sf : number := S754_finite false 5316344548873680 (-47).
Definition lon_sf : number := S754_finite true 8614499440983120 (-46).
Definition lat_paris : number := S754_finite false 6876208501059958 (-47).
Definition lon_paris : number := S754_finite false 5166754672500802 (-51).

Definition photoTags : JsObject :=
  <["Make" := JString "Canon"]>
  (<["MakerNote" := JArray [JNumber num_1; JNumber num_13]]>
  (<["thumbnail" := JArray [JNumber num_13]]>
  (<["latitude" := JNumber lat_sf]>
  (<["longitude" := JNumber lon_sf]> ∅)))).

Definition exifr_parse (f : File) : Outcome (option JsObject) :=
  match f with
  | photo => Returned (Some photoTags)
  | paris => Returned (Some (<["Make" := JString "Nikon"]> ∅))
  | nullIsland =>
      Returned (Some (<["latitude" := JNumber (S754_zero false)]>
                     (<["longitude" := JNumber (S754_zero false)]> ∅)))
  | plain => Returned None
  | corrupt => Thrown (JString "Unknown file format")
  end.

Definition exifr_gps (f : File) : Outcome (option GpsOutput) :=
  match f with
  | photo =>
      Returned (Some {| gps_latitude := Some lat_sf; gps_longitude := Some lon_sf |})
  | paris =>
      Returned (Some {| gps_latitude := Some lat_paris; gps_longitude := Some lon_paris |})
  | nullIsland =>
      Returned (Some {| gps_latitude := Some (S754_zero false);
                        gps_longitude := Some (S754_zero false) |})
  | plain => Returned None
  | corrupt => Thrown (JString "Unknown file format")
  end.

(** A stand-in for the projection. *)
Definition fromLonLat (lonLat : list number) : list number := lonLat.

End Sample.

(** Stand-ins for the three conversions, to run [Home_jsx] on the sample. *)
Module SampleView.

Definition Number_toString (n : number) : string :=
  match n with
  | S754_zero _ => "0"
  | S754_nan => "NaN"
  | S754_infinity false => "Infinity"
  | S754_infinity true => "-Infinity"
  | S754_finite _ _ _ => "<number>"
  end.

Definition JSON_stringify (v : JsValue) : string := "<json>".

Definition Object_toString (v : JsValue) : string := "[object Object]".

End SampleView.

(** ** What the page shows (lines 110-156) *)

(** The children of the page's card, in order. *)
Inductive Block :=
| Title                                          (* <h1> *)
| FileInput                                      (* <input type="file" onChange=...> *)
| ImagePreview (src : string)                    (* <img src={imageSrc}> *)
| LocationSection                                (* <h2>Location:</h2> <div ref={mapRef}> *)
| MetadataSection (items : list (string * string)).   (* <li><strong>key:</strong> text</li> *)

(** [typeof value === 'object']: objects, arrays, and [null]. *)
Definition typeofObject (v : JsValue) : bool :=
  match v with
  | JNull | JArray _ | JObject _ => true
  | _ => false
  end.

(** [value !== null] *)
Definition notNull (v : JsValue) : bool :=
  match v with
  | JNull => false
  | _ => true
  end.

Section Presentation.

(** [Number.prototype.toString], [JSON.stringify(value, null, 2)] and the
    [toString] of objects and arrays. *)
Variable Number_toString : number → string.
Variable JSON_stringify : JsValue → string.
Variable Object_toString : JsValue → string.

(** [String(value)] *)
Definition ToString (v : JsValue) : string :=
  match v with
  | JUndefined => "undefined"
  | JNull => "null"
  | JBool true => "true"
  | JBool false => "false"
  | JNumber n => Number_toString n
  | JString s => s
  | JArray _ => Object_toString v
  | JObject _ => Object_toString v
  end.

(** Lines 146-148. *)
Definition renderValue (v : JsValue) : string :=
  if typeofObject v && notNull v then JSON_stringify v else ToString v.

(** Lines 143-150: one item per entry of the metadata. *)
Definition renderItems (o : JsObject) : list (string * string) :=
  (λ kv, (kv.1, renderValue kv.2)) <$> entries o.

(** [{imageSrc && (...)}]: [null] and the empty string render nothing. *)
Definition previewBlock (p : Page) : list Block :=
  match imageSrc p with
  | Some url => if decide (url = "") then [] else [ImagePreview url]
  | None => []
  end.

(** [{gpsData && (...)}] *)
Definition locationBlock (p : Page) : list Block :=
  match gpsData p with
  | Some _ => [LocationSection]
  | None => []
  end.

(** [{Object.keys(metadata).length > 0 && (...)}] *)
Definition metadataBlock (p : Page) : list Block :=
  if decide (0 < length (entries (metadata p)))
  then [MetadataSection (renderItems (metadata p))]
  else [].

(** The JSX that [Home] returns. *)
Definition Home_jsx (p : Page) : list Block :=
  [Title; FileInput] ++ previewBlock p ++ locationBlock p ++ metadataBlock p.

End Presentation.

(** * Properties *)

(** ** The metadata filter *)

Section Filter.

Implicit Types (o : JsObject) (l : list (string * JsValue)) (k : string).

Lemma foldl_insert_union l o :
  NoDup l.*1 →
  foldl (λ o kv, <[kv.1 := kv.2]> o) o l = list_to_map l ∪ o.
Proof.
  revert o. induction l as [|[k v] l IH]; intros o Hnd; simpl.
  - by rewrite (left_id_L ∅ (∪)).
  - inversion Hnd as [|? ? Hk Hl]; subst.
    rewrite IH by done.
    rewrite <- insert_union_l. symmetry.
    apply insert_union_r.
    by apply not_elem_of_list_to_map_1.
Qed.

(** On pairs with distinct keys, the order in which [Object.fromEntries]
    defines them does not show. *)
Lemma fromEntries_NoDup l : NoDup l.*1 → fromEntries l = list_to_map l.
Proof.
  intros Hnd. unfold fromEntries.
  rewrite foldl_insert_union by done.
  by rewrite (right_id_L ∅ (∪)).
Qed.

Lemma NoDup_fst_filter_entries o : NoDup (filter keepEntry (entries o)).*1.
Proof.
  unfold entries.
  eapply sublist_NoDup; [apply (NoDup_fst_map_to_list o)|].
  apply fmap_sublist, sublist_filter.
Qed.

(** The filter is the restriction of the object to the kept keys. *)
Lemma filterMetadata_filter o : filterMetadata o = filter keepEntry o.
Proof.
  unfold filterMetadata.
  rewrite fromEntries_NoDup by apply NoDup_fst_filter_entries.
  symmetry. apply map_filter_alt.
Qed.

End Filter.

Lemma filterMetadata_lookup (o : JsObject) (k : string) :
  filterMetadata o !! k =
    if decide (k = "MakerNote" ∨ k = "thumbnail") then None else o !! k.
Proof.
  rewrite filterMetadata_filter, map_lookup_filter.
  destruct (o !! k) as [v|] eqn:Hk; simpl.
  - case_decide as Hd.
    + rewrite option_guard_False; [done|].
      unfold keepEntry; simpl. intros [? ?]. by destruct Hd.
    + rewrite option_guard_True; [done|].
      unfold keepEntry; simpl. split; intros ->; apply Hd; auto.
  - by case_decide.
Qed.

(** C2. The metadata filter is a function of the object alone, defined on
    every object: the result has no 'MakerNote' and no 'thumbnail' key, and
    at every other key it holds exactly what the input holds there (the
    same value, scalar or nested, or nothing when the input has nothing);
    the handler shows the filter's result on the parsed tags. *)
Theorem filterMetadata_contract (o : JsObject) (k : string) :
  filterMetadata o !! k
    = (if decide (k = "MakerNote" ∨ k = "thumbnail") then None else o !! k)
  ∧ filtered (Some o) = filterMetadata o.
Proof. split; [apply filterMetadata_lookup|reflexivity]. Qed.

(** C10. Filtering is idempotent: the filter applied to its own output
    gives that output back. *)
Theorem filterMetadata_idempotent (o : JsObject) :
  filterMetadata (filterMetadata o) = filterMetadata o.
Proof.
  apply map_eq. intros k.
  rewrite !filterMetadata_lookup.
  by case_decide.
Qed.

(** ** The handler *)

Section Handler.

Context {File : Type}.
Variable createObjectURL : File → nat → string.
Variable exifr_parse : File → Outcome (option JsObject).
Variable exifr_gps : File → Outcome (option GpsOutput).

Local Abbreviation fileIntake := (fileIntake createObjectURL).
Local Abbreviation parseAndShow := (parseAndShow exifr_parse exifr_gps).
Local Abbreviation handleFileChange :=
  (handleFileChange createObjectURL exifr_parse exifr_gps).
Local Abbreviation parseFailure := (parseFailure exifr_parse exifr_gps).

Lemma fileIntake_eq file p :
  fileIntake file p =
    (withImageSrc (Some (createObjectURL file (objectURLs p)))
       (withObjectURLs (S (objectURLs p)) p),
     [CallCreateObjectURL], Returned tt).
Proof. reflexivity. Qed.

Lemma parseAndShow_ok file p o g :
  exifr_parse file = Returned o →
  exifr_gps file = Returned g →
  parseAndShow file p =
    (withGpsData (acceptGps g) (withMetadata (filtered o) p),
     [CallParse; CallConsoleLog; CallGps], Returned tt).
Proof.
  intros Ho Hg.
  unfold parseAndShow, tryCatch, extraction, bind,
    await_parse, await_gps, call.
  rewrite Ho, Hg. simpl.
  by destruct (acceptGps g).
Qed.

Lemma parseAndShow_parse_thrown file p err :
  exifr_parse file = Thrown err →
  parseAndShow file p =
    (withGpsData None (withMetadata errorIndicator p),
     [CallParse; CallConsoleError], Returned tt).
Proof.
  intros Ho.
  unfold parseAndShow, tryCatch, extraction, bind, await_parse.
  by rewrite Ho.
Qed.

Lemma parseAndShow_gps_thrown file p o err :
  exifr_parse file = Returned o →
  exifr_gps file = Thrown err →
  parseAndShow file p =
    (withGpsData None (withMetadata errorIndicator p),
     [CallParse; CallConsoleLog; CallGps; CallConsoleError], Returned tt).
Proof.
  intros Ho Hg.
  unfold parseAndShow, tryCatch, extraction, bind,
    await_parse, await_gps, call.
  by rewrite Ho, Hg.
Qed.

(** Whatever fails, the [catch] block leaves the same page. *)
Lemma parseAndShow_failure file p :
  parseFailure file →
  ∃ log, parseAndShow file p =
           (withGpsData None (withMetadata errorIndicator p), log, Returned tt)
         ∧ length (filter (λ c, c = CallParse) log) = 1.
Proof.
  intros Hfail.
  destruct (exifr_parse file) as [o|err] eqn:Ho.
  - destruct Hfail as [[err Herr]|[err Herr]]; [congruence|].
    eexists. split; [by eapply parseAndShow_gps_thrown|]. reflexivity.
  - eexists. split; [by eapply parseAndShow_parse_thrown|]. reflexivity.
Qed.

(** The handler is its part before the first [await] followed by the rest. *)
Lemma handleFileChange_file files file p :
  firstFile files = Some file →
  handleFileChange files p =
    match parseAndShow file (fileIntake file p).1.1 with
    | (q, log, r) => (q, CallCreateObjectURL :: log, r)
    end.
Proof.
  intros Hf. unfold handleFileChange. rewrite Hf.
  unfold bind. rewrite fileIntake_eq. simpl.
  by destruct (parseAndShow _ _) as [[q log] r].
Qed.

End Handler.

(** ** The map's life cycle *)

Section Lifecycle.

Context {File : Type}.
Variable createObjectURL : File → nat → string.
Variable exifr_parse : File → Outcome (option JsObject).
Variable exifr_gps : File → Outcome (option GpsOutput).
Variable fromLonLat : list number → list number.

Local Abbreviation parseAndShow := (parseAndShow exifr_parse exifr_gps).
Local Abbreviation newMap := (newMap fromLonLat).
Local Abbreviation effect := (effect fromLonLat).
Local Abbreviation runEffect := (runEffect fromLonLat).
Local Abbreviation commit := (commit fromLonLat).
Local Abbreviation settled := (settled fromLonLat).
Local Abbreviation handled := (handled createObjectURL exifr_parse exifr_gps).
Local Abbreviation instants :=
  (instants createObjectURL exifr_parse exifr_gps fromLonLat).
Local Abbreviation step := (step createObjectURL exifr_parse exifr_gps fromLonLat).
Local Abbreviation run := (run createObjectURL exifr_parse exifr_gps fromLonLat).
Local Abbreviation select :=
  (select createObjectURL exifr_parse exifr_gps fromLonLat).
Local Abbreviation selectAll :=
  (selectAll createObjectURL exifr_parse exifr_gps fromLonLat).
Local Abbreviation reachable :=
  (reachable createObjectURL exifr_parse exifr_gps fromLonLat).
Local Abbreviation yieldsGps := (yieldsGps exifr_parse exifr_gps).

Lemma filter_torn (l : list OlMap) : Forall torn l → filter isLive l = [].
Proof.
  induction 1 as [|m l Hm _ IH]; [done|].
  rewrite filter_cons_False; [done|].
  unfold isLive. rewrite Hm. by intros [? ?].
Qed.

Lemma liveMaps_settled p :
  settled p →
  liveMaps p = match gpsData p, mapRef p with
               | Some g, Some el => [newMap g el]
               | _, _ => []
               end.
Proof.
  intros [_ Hs]. unfold liveMaps.
  destruct (gpsData p) as [g|].
  - destruct Hs as (el & old & -> & -> & Hold & _).
    rewrite filter_app, filter_torn by done. simpl.
    rewrite filter_cons_True; [done|]. unfold isLive; simpl; eauto.
  - destruct Hs as (_ & _ & _ & Hall). rewrite filter_torn by done.
    by destruct (mapRef p).
Qed.

(** The handler never touches refs, maps or React's bookkeeping of the
    cleanup. *)
Lemma handled_frame ev p :
  let h := (handled ev p).1.1 in
  mapRef h = mapRef p ∧ mapInstance h = mapInstance p ∧ destroy h = destroy p
  ∧ maps h = maps p ∧ elements h = elements p.
Proof.
  destruct ev as [files|file]; simpl.
  - by destruct (firstFile files).
  - unfold parseAndShow, tryCatch, extraction, bind, await_parse, await_gps.
    destruct (exifr_parse file); simpl; [|done].
    destruct (exifr_gps file) as [g|]; simpl; [|done].
    by destruct (acceptGps g).
Qed.

(** What the handler leaves in [gpsData], and whether the effect is due. *)
Lemma handled_gps ev p :
  let h := (handled ev p).1.1 in
  (gpsData h = gpsData p ∧ depsChanged h = depsChanged p)
  ∨ (∃ v, ev = Settled v
       ∧ depsChanged h = depsChanged p || negb (sameGps (gpsData p) (gpsData h))).
Proof.
  destruct ev as [files|file]; simpl.
  - left. by destruct (firstFile files).
  - right. exists file. split; [done|].
    unfold parseAndShow, tryCatch, extraction, bind, await_parse, await_gps.
    destruct (exifr_parse file); simpl; [|done].
    destruct (exifr_gps file) as [g|]; simpl; [|done].
    by destruct (acceptGps g).
Qed.

Lemma alter_last {A} (f : A → A) (l : list A) (x : A) :
  alter f (length l) (l ++ [x]) = l ++ [f x].
Proof.
  replace (length l) with (length l + 0) by lia.
  by rewrite alter_app_r.
Qed.

Lemma torn_snoc old m : Forall torn old → Forall torn (old ++ [setTarget None m]).
Proof.
  intros Hold. apply Forall_app; split; [done|].
  apply Forall_singleton. reflexivity.
Qed.

(** A render that has nothing to do with the map: [gpsData] is the
    object the effect last ran for. Nothing moves. *)
Lemma commit_same p h :
  settled p →
  mapRef h = mapRef p → mapInstance h = mapInstance p →
  destroy h = destroy p → maps h = maps p →
  gpsData h = gpsData p → depsChanged h = false →
  render h = h ∧ runDestroy (render h) = h ∧ commit h = h ∧ settled h.
Proof.
  intros [Hd Hs] Href Hinst Hdes Hmaps Hgps Hch.
  assert (render h = h) as Hr.
  { unfold render. rewrite Hgps, Href.
    destruct (gpsData p) as [g|].
    - by destruct Hs as (el & old & -> & _).
    - destruct Hs as (Hn & _). rewrite <- Href in Hn.
      destruct h; simpl in *; by subst. }
  unfold commit, runEffect, runDestroy. rewrite Hr, Hch. simpl. rewrite Hch.
  repeat split; try done.
  rewrite Hgps, Href, Hmaps, Hinst, Hdes. exact Hs.
Qed.

(** A render after [gpsData] was replaced: the map held, if any, is torn
    down and released, no map being constructed or touched otherwise;
    then the map for the new coordinate, if there is one, is constructed
    at a fresh address. *)
Lemma commit_changed p h :
  settled p →
  mapRef h = mapRef p → mapInstance h = mapInstance p →
  destroy h = destroy p → maps h = maps p →
  depsChanged h = true →
  let r := render h in
  let d := runDestroy r in
  let q := commit h in
  maps r = maps p ∧ mapInstance r = mapInstance p
  ∧ maps d = match mapInstance p with
             | Some a => alter (setTarget None) a (maps p)
             | None => maps p
             end
  ∧ mapInstance d = None ∧ Forall torn (maps d)
  ∧ gpsData q = gpsData h ∧ metadata q = metadata h ∧ imageSrc q = imageSrc h
  ∧ match gpsData h with
    | Some c => ∃ el, mapRef q = Some el ∧ maps q = maps d ++ [newMap c el]
                      ∧ mapInstance q = Some (length (maps d))
    | None => mapRef q = None ∧ maps q = maps d ∧ mapInstance q = None
    end
  ∧ settled q.
Proof.
  intros [Hd Hs] Href Hinst Hdes Hmaps Hch.
  destruct h as [md im gh rh ih ch dh mh eh uh]; simpl in *; subst.
  unfold commit, runEffect, runDestroy, render, effect, cleanup, settled; simpl.
  destruct (gpsData p) as [g|].
  - destruct Hs as (el & old & -> & -> & Hold & -> & ->).
    destruct gh as [c|]; simpl; rewrite alter_last.
    + repeat split; try done.
      * by apply torn_snoc.
      * by exists el.
      * exists el, (old ++ [setTarget None (newMap g el)]).
        repeat split; try done. by apply torn_snoc.
    + repeat split; try done; by apply torn_snoc.
  - destruct Hs as (-> & -> & -> & Hall).
    destruct gh as [c|]; simpl.
    + repeat split; try done.
      * by exists eh.
      * by exists eh, (maps p).
    + repeat split; done.
Qed.

(** From a page at rest, the handler either leaves [gpsData] alone or
    makes the effect due. *)
Lemma handled_settled ev p :
  settled p →
  let h := (handled ev p).1.1 in
  (gpsData h = gpsData p ∧ depsChanged h = false) ∨ depsChanged h = true.
Proof.
  intros [Hd _]. simpl.
  destruct (handled_gps ev p) as [[Hg Hc]|(v & _ & Hc)].
  - left. by rewrite Hc.
  - rewrite Hd in Hc. simpl in Hc.
    destruct (gpsData p) eqn:Hp, (gpsData (handled ev p).1.1) eqn:Hh;
      simpl in Hc; auto.
Qed.

Lemma step_settled ev p : settled p → settled (step ev p).
Proof.
  intros Hs. unfold step.
  destruct (handled_frame ev p) as (Href & Hinst & Hdes & Hmaps & _).
  destruct (handled_settled ev p Hs) as [[Hg Hc]|Hc].
  - destruct (commit_same p _ Hs Href Hinst Hdes Hmaps Hg Hc) as (_ & _ & -> & Hq).
    exact Hq.
  - apply (commit_changed p _ Hs Href Hinst Hdes Hmaps Hc).
Qed.

Lemma settled_initial : settled initialPage.
Proof. repeat split; constructor. Qed.

Lemma reachable_settled p : reachable p → settled p.
Proof.
  induction 1 as [|ev p _ IH]; [apply settled_initial|by apply step_settled].
Qed.

Lemma reachable_run evs p : reachable p → reachable (run evs p).
Proof.
  revert p. induction evs as [|ev evs IH]; intros p Hp; [done|].
  apply IH. by constructor.
Qed.

Lemma reachable_select files p : reachable p → reachable (select files p).
Proof. apply reachable_run. Qed.

Lemma reachable_selectAll fs p : reachable p → reachable (selectAll fs p).
Proof.
  revert p. induction fs as [|f fs IH]; intros p Hp; [done|].
  apply IH. by apply reachable_select.
Qed.

Lemma liveMaps_le_1 p : settled p → length (liveMaps p) ≤ 1.
Proof.
  intros Hs. rewrite (liveMaps_settled p Hs).
  destruct (gpsData p), (mapRef p); simpl; lia.
Qed.

(** At every instant of an event taken from a page at rest, at most one
    map is live. *)
Lemma instants_le_1 ev p q :
  settled p → q ∈ instants ev p → length (liveMaps q) ≤ 1.
Proof.
  intros Hs Hq.
  destruct (handled_frame ev p) as (Href & Hinst & Hdes & Hmaps & _).
  assert (∀ x, maps x = maps p → length (liveMaps x) ≤ 1) as Hsame.
  { intros x Hx. unfold liveMaps. rewrite Hx. by apply liveMaps_le_1. }
  assert (∀ x, Forall torn (maps x) → length (liveMaps x) ≤ 1) as Htorn.
  { intros x Hx. unfold liveMaps. rewrite filter_torn by done. simpl; lia. }
  unfold instants in Hq.
  destruct (handled_settled ev p Hs) as [[Hg Hc]|Hc].
  - destruct (commit_same p _ Hs Href Hinst Hdes Hmaps Hg Hc) as (Hr & Hd & Hcm & _).
    rewrite Hcm, Hd, Hr in Hq.
    apply Hsame.
    repeat (apply elem_of_cons in Hq as [->|Hq]; [done|]).
    by apply elem_of_nil in Hq.
  - destruct (commit_changed p _ Hs Href Hinst Hdes Hmaps Hc)
      as (Hr & _ & _ & _ & Hd & _ & _ & _ & _ & Hq').
    apply elem_of_cons in Hq as [->|Hq]; [by apply Hsame|].
    apply elem_of_cons in Hq as [->|Hq]; [by apply Hsame|].
    apply elem_of_cons in Hq as [->|Hq]; [by apply Htorn|].
    apply elem_of_cons in Hq as [->|Hq]; [by apply liveMaps_le_1|].
    by apply elem_of_nil in Hq.
Qed.

(** A settled extraction that yields a valid coordinate leaves exactly
    the map for that coordinate live. *)
Lemma step_yieldsGps file c p :
  settled p → yieldsGps file c →
  let q := step (Settled file) p in
  gpsData q = Some c
  ∧ ∃ el, mapRef q = Some el
          ∧ maps q = maps (runDestroy (render (handled (Settled file) p).1.1))
                       ++ [newMap c el]
          ∧ mapInstance q = Some (length (maps q) - 1)
          ∧ liveMaps q = [newMap c el].
Proof.
  intros Hs (o & g & Ho & Hg & Hc) q.
  destruct (handled_frame (Settled file) p) as (Href & Hinst & Hdes & Hmaps & _).
  assert (gpsData (handled (Settled file) p).1.1 = Some c) as Hh.
  { simpl. rewrite (parseAndShow_ok _ _ file p o g Ho Hg). simpl. exact Hc. }
  assert (depsChanged (handled (Settled file) p).1.1 = true) as Hch.
  { destruct (handled_settled (Settled file) p Hs) as [[Hgp Hd]|Hd]; [|done].
    simpl in *. rewrite (parseAndShow_ok _ _ file p o g Ho Hg) in *. simpl in *.
    rewrite Hc in Hgp. rewrite <- Hgp in Hd. destruct Hs as [Hp _].
    rewrite Hp in Hd. done. }
  destruct (commit_changed p _ Hs Href Hinst Hdes Hmaps Hch)
    as (_ & _ & _ & _ & _ & Hgq & _ & _ & Hnew & Hsq).
  rewrite Hh in Hnew, Hgq. destruct Hnew as (el & Hel & Hm & Hi).
  fold (step (Settled file) p) in *. fold q in Hgq, Hel, Hm, Hi, Hsq.
  split; [done|]. exists el. repeat split; try done.
  - rewrite Hi, Hm, length_app. simpl. f_equal. lia.
  - rewrite (liveMaps_settled q Hsq), Hgq, Hel. done.
Qed.

Lemma selectAll_snoc fs file p :
  selectAll (fs ++ [file]) p =
    step (Settled file) (step (Change (Some [file])) (selectAll fs p)).
Proof. unfold selectAll. by rewrite foldl_app. Qed.

(** C1. In every state the page can reach, a live map exists if and only
    if [gpsData] is set; at no instant of any event are two maps live;
    and after a non-empty sequence of selections whose last yields a
    valid coordinate (in particular when each does), exactly one map
    is live, the one constructed for that coordinate. *)
Theorem single_live_map p :
  reachable p →
  ((∃ m, m ∈ liveMaps p) ↔ is_Some (gpsData p))
  ∧ length (liveMaps p) ≤ 1
  ∧ (∀ ev q, q ∈ instants ev p → length (liveMaps q) ≤ 1)
  ∧ (∀ fs file c,
       yieldsGps file c →
       ∃ el, liveMaps (selectAll (fs ++ [file]) p) = [newMap c el]).
Proof.
  intros Hp. pose proof (reachable_settled p Hp) as Hs.
  repeat split.
  - intros [m Hm]. rewrite (liveMaps_settled p Hs) in Hm.
    destruct (gpsData p); [by eexists|]. by apply elem_of_nil in Hm.
  - intros [g Hg]. rewrite (liveMaps_settled p Hs), Hg.
    destruct Hs as [_ Hs]. rewrite Hg in Hs.
    destruct Hs as (el & old & -> & _).
    eexists. by apply list_elem_of_singleton.
  - by apply liveMaps_le_1.
  - intros ev q. by apply instants_le_1.
  - intros fs file c Hc. rewrite selectAll_snoc.
    assert (settled (step (Change (Some [file])) (selectAll fs p))) as Hs'.
    { apply step_settled, reachable_settled. by apply reachable_selectAll. }
    destruct (step_yieldsGps file c _ Hs' Hc) as (_ & el & _ & _ & _ & Hl).
    by exists el.
Qed.

Lemma render_maps h : maps (render h) = maps h.
Proof. unfold render. destruct (gpsData h); [|done]. by destruct (mapRef h). Qed.

Lemma runDestroy_length h : length (maps (runDestroy h)) = length (maps h).
Proof.
  unfold runDestroy, cleanup. destruct (_ && _); [|done].
  destruct (mapInstance h); [|done]. simpl. apply length_alter.
Qed.

(** Once the awaited calls have settled, the handler always sets
    [gpsData]. *)
Lemma settle_changes file p :
  let h := (handled (Settled file) p).1.1 in
  depsChanged h = depsChanged p || negb (sameGps (gpsData p) (gpsData h)).
Proof.
  simpl.
  unfold parseAndShow, tryCatch, extraction, bind, await_parse, await_gps.
  destruct (exifr_parse file); simpl; [|done].
  destruct (exifr_gps file) as [g|]; simpl; [|done].
  by destruct (acceptGps g).
Qed.

Lemma settle_active_changes file p :
  is_Some (gpsData p) → depsChanged (handled (Settled file) p).1.1 = true.
Proof.
  intros [g Hg]. rewrite settle_changes, Hg. simpl. apply orb_true_r.
Qed.

(** Tearing a map down, or constructing another one, leaves the view and
    the layers of every map already there as they are. *)
Lemma lookup_teardown (l : list OlMap) a b m :
  l !! b = Some m →
  ∃ m', alter (setTarget None) a l !! b = Some m'
        ∧ view m' = view m ∧ layers m' = layers m.
Proof.
  intros Hb. destruct (decide (a = b)) as [->|Hne].
  - exists (setTarget None m).
    rewrite list_lookup_alter, Hb, decide_True by done. done.
  - exists m. by rewrite list_lookup_alter_ne.
Qed.

Lemma lookup_construct (l : list OlMap) new b m :
  l !! b = Some m → (l ++ [new]) !! b = Some m.
Proof. intros Hb. by apply lookup_app_l_Some. Qed.

(** The maps at an instant of an event: those before it, or those with
    the held map torn down, or the latter and one new map. *)
Lemma instants_maps ev p q :
  settled p → q ∈ instants ev p →
  let d := match mapInstance p with
           | Some a => alter (setTarget None) a (maps p)
           | None => maps p
           end in
  maps q = maps p ∨ maps q = d ∨ ∃ new, maps q = d ++ [new].
Proof.
  intros Hs Hq.
  destruct (handled_frame ev p) as (Href & Hinst & Hdes & Hmaps & _).
  unfold instants in Hq. simpl.
  destruct (handled_settled ev p Hs) as [[Hg Hc]|Hc].
  - destruct (commit_same p _ Hs Href Hinst Hdes Hmaps Hg Hc) as (Hr & Hd & Hcm & _).
    rewrite Hcm, Hd, Hr in Hq. left.
    repeat (apply elem_of_cons in Hq as [->|Hq]; [done|]).
    by apply elem_of_nil in Hq.
  - destruct (commit_changed p _ Hs Href Hinst Hdes Hmaps Hc)
      as (Hr & _ & Hd & _ & _ & _ & _ & _ & Hnew & _).
    apply elem_of_cons in Hq as [->|Hq]; [by left|].
    apply elem_of_cons in Hq as [->|Hq]; [by left|].
    apply elem_of_cons in Hq as [->|Hq]; [by right; left|].
    apply elem_of_cons in Hq as [->|Hq]; [|by apply elem_of_nil in Hq].
    right. rewrite <- Hd.
    destruct (gpsData (handled ev p).1.1).
    + destruct Hnew as (el & _ & -> & _). right. by eexists.
    + destruct Hnew as (_ & -> & _). by left.
Qed.

(** C5. From a state where a map is held (Active): whatever a settled
    extraction yields (another coordinate, none, or a failure), the held
    map is unbound from its target and the reference released, with no
    map constructed up to then; a new map, if any, is constructed only
    after that; removing the component does the same teardown; and at
    no instant of any event is the view or a layer (centre, marker) of
    an existing map changed. *)
Theorem teardown_on_exit p a :
  reachable p →
  mapInstance p = Some a →
  (∃ m, maps p !! a = Some m ∧ isLive m)
  ∧ (∀ file,
       let h := (handled (Settled file) p).1.1 in
       let d := runDestroy (render h) in
       let q := step (Settled file) p in
       maps h = maps p ∧ maps (render h) = maps p
       ∧ maps d = alter (setTarget None) a (maps p)
       ∧ mapInstance d = None ∧ liveMaps d = []
       ∧ (maps q = maps d ∨ ∃ new, maps q = maps d ++ [new]))
  ∧ (maps (unmount p) = alter (setTarget None) a (maps p)
     ∧ mapInstance (unmount p) = None ∧ liveMaps (unmount p) = [])
  ∧ (∀ ev q b m,
       q ∈ instants ev p → maps p !! b = Some m →
       ∃ m', maps q !! b = Some m' ∧ view m' = view m ∧ layers m' = layers m).
Proof.
  intros Hp Ha. pose proof (reachable_settled p Hp) as Hs.
  assert (∃ g el old, gpsData p = Some g ∧ maps p = old ++ [newMap g el]
                      ∧ Forall torn old ∧ a = length old ∧ destroy p = true)
    as (g & el & old & Hg & Hm & Hold & -> & Hdes).
  { destruct Hs as [_ Hs]. destruct (gpsData p) as [g|].
    - destruct Hs as (el & old & _ & Hm & Hold & Hi & Hd).
      exists g, el, old. repeat split; try done. congruence.
    - destruct Hs as (_ & Hi & _). congruence. }
  assert (Forall torn (alter (setTarget None) (length old) (maps p))) as Htorn.
  { rewrite Hm, alter_last. by apply torn_snoc. }
  split; [|split; [|split]].
  - exists (newMap g el). rewrite Hm. split.
    + rewrite lookup_app_r by lia. by rewrite Nat.sub_diag.
    + unfold isLive. simpl. eauto.
  - intros file h d q.
    destruct (handled_frame (Settled file) p) as (Href & Hinst & Hdes' & Hmaps & _).
    assert (depsChanged h = true) as Hch by (apply settle_active_changes; eauto).
    destruct (commit_changed p _ Hs Href Hinst Hdes' Hmaps Hch)
      as (Hr & _ & Hd & Hid & Hdt & _ & _ & _ & Hnew & _).
    fold h in Hr, Hd, Hid, Hdt, Hnew. fold d in Hd, Hid, Hdt, Hnew.
    change (commit h) with q in Hnew.
    rewrite Ha in Hd.
    repeat split; try done.
    + unfold liveMaps. by apply filter_torn.
    + destruct (gpsData h).
      * destruct Hnew as (el' & _ & -> & _). right. by eexists.
      * destruct Hnew as (_ & -> & _). by left.
  - unfold unmount, cleanup. rewrite Hdes, Ha. simpl.
    repeat split; try done.
    unfold liveMaps. simpl. by apply filter_torn.
  - intros ev q b m Hq Hb.
    destruct (instants_maps ev p q Hs Hq) as [->|[->| [new ->]]].
    + by exists m.
    + rewrite Ha. by apply lookup_teardown.
    + rewrite Ha.
      destruct (lookup_teardown (maps p) (length old) b m Hb) as (m' & Hm' & Hv & Hl).
      exists m'. split; [by apply lookup_construct|done].
Qed.

(** C6. When a settled extraction yields the valid coordinate
    [(lat, lon)], from the Inactive state as from any other, the map
    constructed is bound to the container, centred on
    [fromLonLat [lon; lat]] at zoom 13, and has two layers: OSM tiles,
    and a vector layer whose only feature is a marker at that same
    point, styled with the icon '/marker-icon.png' anchored at
    [0.5, 1]; it is the only live map. *)
Theorem map_construction p file o lat lon :
  reachable p →
  exifr_parse file = Returned o →
  exifr_gps file =
    Returned (Some {| gps_latitude := Some lat; gps_longitude := Some lon |}) →
  ToBoolean lat = true → ToBoolean lon = true →
  let q := step (Settled file) p in
  let pt := fromLonLat [lon; lat] in
  gpsData q = Some {| latitude := lat; longitude := lon |}
  ∧ ∃ a el new,
      new = {| target := Some el;
               layers :=
                 [ TileLayer OSM;
                   VectorLayer
                     {| features :=
                          [ {| geometry := pt;
                               style :=
                                 Some {| image := {| anchor := [num_0_5; num_1];
                                                     src := "/marker-icon.png" |} |}
                            |} ] |} ];
               view := {| center := pt; zoom := num_13 |} |}
      ∧ mapRef q = Some el ∧ mapInstance q = Some a
      ∧ maps q !! a = Some new
      ∧ length (maps q) = S (length (maps p))
      ∧ liveMaps q = [new].
Proof.
  intros Hp Ho Hg Hlat Hlon q pt.
  pose proof (reachable_settled p Hp) as Hs.
  set (c := {| latitude := lat; longitude := lon |}).
  assert (yieldsGps file c) as Hy.
  { eexists _, _. repeat split; [exact Ho|exact Hg|].
    simpl. by rewrite Hlat, Hlon. }
  destruct (step_yieldsGps file c p Hs Hy) as (Hgq & el & Hel & Hm & Hi & Hl).
  fold q in Hgq, Hel, Hm, Hi, Hl.
  split; [done|].
  exists (length (maps q) - 1), el, (newMap c el).
  assert (length (maps (runDestroy (render (handled (Settled file) p).1.1)))
          = length (maps p)) as Hlen.
  { destruct (handled_frame (Settled file) p) as (_ & _ & _ & Hmaps & _).
    by rewrite runDestroy_length, render_maps, Hmaps. }
  repeat split; try done.
  - rewrite Hm at 1. rewrite Hm, length_app. simpl.
    rewrite lookup_app_r by lia.
    replace (_ - _) with 0 by lia. done.
  - rewrite Hm, length_app, Hlen. simpl. lia.
Qed.

End Lifecycle.

(** ** Selections *)

Section Selections.

Context {File : Type}.
Variable createObjectURL : File → nat → string.
Variable exifr_parse : File → Outcome (option JsObject).
Variable exifr_gps : File → Outcome (option GpsOutput).
Variable fromLonLat : list number → list number.

Local Abbreviation fileIntake := (fileIntake createObjectURL).
Local Abbreviation parseAndShow := (parseAndShow exifr_parse exifr_gps).
Local Abbreviation handleFileChange :=
  (handleFileChange createObjectURL exifr_parse exifr_gps).
Local Abbreviation parseFailure := (parseFailure exifr_parse exifr_gps).
Local Abbreviation commit := (commit fromLonLat).
Local Abbreviation step := (step createObjectURL exifr_parse exifr_gps fromLonLat).
Local Abbreviation select :=
  (select createObjectURL exifr_parse exifr_gps fromLonLat).
Local Abbreviation reachable :=
  (reachable createObjectURL exifr_parse exifr_gps fromLonLat).

(** React's commit writes none of the three state cells, nor the count
    of object URLs. *)
Lemma commit_state h :
  metadata (commit h) = metadata h ∧ imageSrc (commit h) = imageSrc h
  ∧ gpsData (commit h) = gpsData h ∧ objectURLs (commit h) = objectURLs h.
Proof.
  unfold commit, runEffect, runDestroy, render, effect, cleanup.
  destruct h as [md im gh rh ih ch dh mh eh uh]; simpl.
  destruct gh, rh, ch, dh, ih; simpl; done.
Qed.

(** After a commit the effect is not due; with no coordinate, no
    container is mounted. *)
Lemma commit_rest h :
  depsChanged (commit h) = false ∧ (gpsData h = None → mapRef (commit h) = None).
Proof.
  unfold commit, runEffect, runDestroy, render, effect, cleanup.
  destruct h as [md im gh rh ih ch dh mh eh uh]; simpl.
  destruct gh, rh, ch, dh, ih; simpl; done.
Qed.

Lemma commit_idle h :
  gpsData h = None → mapRef h = None → depsChanged h = false → commit h = h.
Proof.
  unfold commit, runEffect, runDestroy, render.
  destruct h as [md im gh rh ih ch dh mh eh uh]; simpl.
  by intros -> -> ->.
Qed.

Lemma select_none files p : firstFile files = None → select files p = commit p.
Proof.
  intros Hf. unfold select, selection. rewrite Hf. simpl.
  unfold step. simpl. by rewrite Hf.
Qed.

Lemma select_file files file p :
  firstFile files = Some file →
  select files p =
    commit (parseAndShow file (commit (fileIntake file p).1.1)).1.1.
Proof.
  intros Hf. unfold select, selection. rewrite Hf. simpl.
  unfold step. simpl. by rewrite Hf.
Qed.

(** C7. A file-selection event that carries no file: the handler
    returns at once, having written nothing and called nothing; the
    preview, the metadata and [gpsData] are what they were, and from a
    state the page can reach the whole page is. *)
Theorem no_file_no_op files p :
  firstFile files = None →
  handleFileChange files p = (p, [], Returned tt)
  ∧ imageSrc (select files p) = imageSrc p
  ∧ metadata (select files p) = metadata p
  ∧ gpsData (select files p) = gpsData p
  ∧ (reachable p → select files p = p).
Proof.
  intros Hf. rewrite (select_none files p Hf).
  destruct (commit_state p) as (Hm & Hi & Hg & _).
  repeat split; try done.
  - unfold handleFileChange. by rewrite Hf.
  - intros Hp. pose proof (reachable_settled _ _ _ _ p Hp) as Hs.
    by destruct (commit_same fromLonLat p p Hs) as (_ & _ & -> & _);
      try done; apply Hs.
Qed.

(** C4. After an extraction in which both calls resolve, [gpsData] is
    set to a coordinate exactly when the dedicated GPS result has both
    its latitude and its longitude present and truthy, and then to that
    pair; when the result is absent, or either coordinate is missing or
    a numeric zero, [gpsData] is [null], whatever the full tag set [o]
    holds. *)
Theorem gps_validity file p o g :
  exifr_parse file = Returned o →
  exifr_gps file = Returned g →
  let q := (parseAndShow file p).1.1 in
  (∀ c, gpsData q = Some c ↔
        ∃ out, g = Some out
               ∧ gps_latitude out = Some (latitude c)
               ∧ gps_longitude out = Some (longitude c)
               ∧ truthy (gps_latitude out) = true
               ∧ truthy (gps_longitude out) = true)
  ∧ ((g = None
      ∨ ∃ out, g = Some out
               ∧ (missingOrZero (gps_latitude out) = true
                  ∨ missingOrZero (gps_longitude out) = true)) →
     gpsData q = None)
  ∧ gpsData (step (Settled file) p) = gpsData q.
Proof.
  intros Ho Hg q.
  assert (gpsData q = acceptGps g) as Hq.
  { unfold q. by rewrite (parseAndShow_ok _ _ file p o g Ho Hg). }
  split; [|split].
  - intros c. rewrite Hq. unfold acceptGps. split.
    + destruct g as [[[lat|] [lon|]]|]; simpl; try done.
      destruct (ToBoolean lat) eqn:Hlat, (ToBoolean lon) eqn:Hlon; simpl; try done.
      intros [= <-]. simpl. eexists. repeat split; done.
    + intros (out & -> & Hlat & Hlon & Htl & Htn).
      rewrite Hlat, Hlon in *. simpl in *. rewrite Htl, Htn. simpl.
      by destruct c.
  - rewrite Hq. unfold acceptGps.
    intros [->|(out & -> & Hz)]; [done|].
    destruct out as [[lat|] [lon|]]; simpl in *; try done.
    destruct lat, lon; simpl in *; try done; by destruct Hz.
  - unfold step. simpl. apply commit_state.
Qed.

(** C9. A file on which the parser resolves to nothing (null or
    undefined) and the dedicated GPS call resolves without a valid
    coordinate, as it does on a file with no EXIF data: the handler
    returns without throwing and without entering the [catch] block,
    the filter runs on the empty object, the metadata shown is empty
    (no error entry), and [gpsData] is [null]. *)
Theorem no_exif_no_fault files file p g :
  firstFile files = Some file →
  exifr_parse file = Returned None →
  exifr_gps file = Returned g →
  acceptGps g = None →
  (∃ q, handleFileChange files p =
          (q, [CallCreateObjectURL; CallParse; CallConsoleLog; CallGps], Returned tt)
        ∧ metadata q = filterMetadata ∅ ∧ metadata q = ∅ ∧ gpsData q = None)
  ∧ metadata (select files p) = ∅
  ∧ metadata (select files p) !! "error" = None
  ∧ gpsData (select files p) = None.
Proof.
  intros Hf Ho Hg Hacc.
  split.
  - rewrite (handleFileChange_file _ _ _ files file p Hf).
    rewrite (parseAndShow_ok _ _ file _ None g Ho Hg).
    eexists. split; [reflexivity|]. simpl. by rewrite Hacc.
  - rewrite (select_file files file p Hf).
    destruct (commit_state (parseAndShow file (commit (fileIntake file p).1.1)).1.1)
      as (-> & _ & -> & _).
    rewrite (parseAndShow_ok _ _ file _ None g Ho Hg). simpl.
    by rewrite Hacc.
Qed.

(** C8. When the parse of the selected file fails, the preview is the
    object URL made from that file, in the handler's result and on the
    page once it has settled; the [catch] block writes the metadata and
    [gpsData] (with React's note that the effect is due) and nothing
    else. *)
Theorem preview_survives_failure files file p :
  firstFile files = Some file →
  parseFailure file →
  imageSrc (handleFileChange files p).1.1
    = Some (createObjectURL file (objectURLs p))
  ∧ imageSrc (select files p) = Some (createObjectURL file (objectURLs p))
  ∧ (∀ err q,
       let q' := (onParseFailure err q).1.1 in
       imageSrc q' = imageSrc q ∧ mapRef q' = mapRef q
       ∧ mapInstance q' = mapInstance q ∧ maps q' = maps q
       ∧ destroy q' = destroy q ∧ elements q' = elements q
       ∧ objectURLs q' = objectURLs q).
Proof.
  intros Hf Hfail. split; [|split].
  - rewrite (handleFileChange_file _ _ _ files file p Hf).
    destruct (parseAndShow_failure _ _ file (fileIntake file p).1.1 Hfail)
      as (log & -> & _).
    reflexivity.
  - rewrite (select_file files file p Hf).
    destruct (commit_state (parseAndShow file (commit (fileIntake file p).1.1)).1.1)
      as (_ & -> & _).
    destruct (parseAndShow_failure _ _ file (commit (fileIntake file p).1.1) Hfail)
      as (log & -> & _).
    change (imageSrc (commit (fileIntake file p).1.1)
            = Some (createObjectURL file (objectURLs p))).
    by destruct (commit_state (fileIntake file p).1.1) as (_ & -> & _).
  - intros err q. simpl. repeat split.
Qed.

(** On a page that already shows the error indicator and no map, a
    failing selection renews the preview and nothing else. *)
Lemma select_failure_again files file x :
  firstFile files = Some file →
  parseFailure file →
  metadata x = errorIndicator → gpsData x = None →
  mapRef x = None → depsChanged x = false →
  select files x =
    withImageSrc (Some (createObjectURL file (objectURLs x)))
      (withObjectURLs (S (objectURLs x)) x).
Proof.
  intros Hf Hfail Hm Hg Hr Hd.
  rewrite (select_file files file x Hf), fileIntake_eq. simpl.
  set (w := withImageSrc _ _).
  assert (commit w = w) as Hw by (by apply commit_idle).
  rewrite Hw.
  destruct (parseAndShow_failure _ _ file w Hfail) as (log & -> & _).
  simpl.
  assert (withGpsData None (withMetadata errorIndicator w) = w) as ->.
  { unfold w. destruct x; simpl in *. by subst. }
  exact Hw.
Qed.

(** C3. When the parse of the selected file fails (the tag parser or
    the GPS extractor rejects), the handler returns without throwing;
    the metadata is the error indicator, an object with the one entry
    'error'; [gpsData] is [null] and no container is mounted; the
    parser was called once; and selecting the same file again leaves
    the page as it was after the first selection, but for the preview,
    which is a new object URL of the same file. *)
Theorem parse_failure_contained files file p :
  firstFile files = Some file →
  parseFailure file →
  (∃ q log, handleFileChange files p = (q, log, Returned tt)
            ∧ metadata q = errorIndicator ∧ gpsData q = None
            ∧ length (filter (λ c, c = CallParse) log) = 1)
  ∧ map_to_list errorIndicator = [("error", JString "Failed to read EXIF metadata")]
  ∧ (let q1 := select files p in
     let q2 := select files q1 in
     metadata q1 = errorIndicator ∧ gpsData q1 = None ∧ mapRef q1 = None
     ∧ q2 = withImageSrc (Some (createObjectURL file (objectURLs q1)))
              (withObjectURLs (S (objectURLs q1)) q1)
     ∧ metadata q2 = metadata q1 ∧ gpsData q2 = gpsData q1
     ∧ mapRef q2 = mapRef q1 ∧ mapInstance q2 = mapInstance q1
     ∧ maps q2 = maps q1).
Proof.
  intros Hf Hfail. split; [|split].
  - rewrite (handleFileChange_file _ _ _ files file p Hf).
    destruct (parseAndShow_failure _ _ file (fileIntake file p).1.1 Hfail)
      as (log & -> & Hlog).
    eexists _, _. split; [reflexivity|]. repeat split; done.
  - apply map_to_list_singleton.
  - intros q1 q2.
    assert (metadata q1 = errorIndicator ∧ gpsData q1 = None
            ∧ mapRef q1 = None ∧ depsChanged q1 = false) as (Hm & Hg & Hr & Hd).
    { unfold q1. rewrite (select_file files file p Hf).
      destruct (parseAndShow_failure _ _ file (commit (fileIntake file p).1.1) Hfail)
        as (log & -> & _).
      set (h := (withGpsData None _, log, Returned tt).1.1).
      destruct (commit_state h) as (-> & _ & -> & _).
      destruct (commit_rest h) as (-> & ->); done. }
    assert (q2 = withImageSrc (Some (createObjectURL file (objectURLs q1)))
                   (withObjectURLs (S (objectURLs q1)) q1)) as Hq2.
    { by apply select_failure_again. }
    repeat split; try done; by rewrite Hq2.
Qed.

End Selections.

(** ** The sample document, run *)

Section SampleRuns.

Import Sample.

Local Abbreviation handleFileChange' :=
  (handleFileChange createObjectURL exifr_parse exifr_gps).
Local Abbreviation parseAndShow' := (parseAndShow exifr_parse exifr_gps).
Local Abbreviation step' := (step createObjectURL exifr_parse exifr_gps fromLonLat).
Local Abbreviation select' := (select createObjectURL exifr_parse exifr_gps fromLonLat).
Local Abbreviation selectAll' :=
  (selectAll createObjectURL exifr_parse exifr_gps fromLonLat).
Local Abbreviation reachable' :=
  (reachable createObjectURL exifr_parse exifr_gps fromLonLat).

(** The photo is selected: its tags are shown without the maker note and
    the thumbnail, and one map is live, centred on its coordinate. *)
Example select_photo :
  let q := select' (Some [photo]) initialPage in
  metadata q
    = <["Make" := JString "Canon"]>
        (<["latitude" := JNumber lat_sf]> (<["longitude" := JNumber lon_sf]> ∅))
  ∧ size (metadata q) = 3
  ∧ imageSrc q = Some "blob:0"
  ∧ gpsData q = Some {| latitude := lat_sf; longitude := lon_sf |}
  ∧ liveMaps q = [newMap fromLonLat {| latitude := lat_sf; longitude := lon_sf |} 0]
  ∧ mapInstance q = Some 0.
Proof.
  by vm_compute.
Qed.

(** Photo, then Paris, then the corrupt file: one map at a time, none at
    the end, two torn down. *)
Example select_three :
  let q1 := select' (Some [photo]) initialPage in
  let q2 := select' (Some [paris]) q1 in
  let q3 := select' (Some [corrupt]) q2 in
  (length (liveMaps q1), length (liveMaps q2), length (liveMaps q3)) = (1, 1, 0)
  ∧ length (maps q3) = 2
  ∧ metadata q3 = errorIndicator
  ∧ imageSrc q3 = Some "blob:2".
Proof. vm_compute. repeat split. Qed.

(** Null Island: the tags hold a latitude and a longitude, the dedicated
    call answers zeros, no map. *)
Example select_nullIsland :
  let q := select' (Some [nullIsland]) initialPage in
  gpsData q = None ∧ liveMaps q = []
  ∧ metadata q !! "latitude" = Some (JNumber (S754_zero false)).
Proof. vm_compute. repeat split. Qed.

(** The page after the photo has been selected. *)
Local Abbreviation photoPage := (select' (Some [photo]) initialPage).

Lemma reachable_photoPage : reachable' photoPage.
Proof. apply reachable_select, reachable_initial. Qed.

Lemma single_live_map_witness :
  reachable' initialPage
  ∧ ∃ el, liveMaps (selectAll' ([photo; corrupt] ++ [paris]) initialPage)
          = [newMap fromLonLat {| latitude := lat_paris; longitude := lon_paris |} el].
Proof.
  split; [apply reachable_initial|].
  apply (single_live_map createObjectURL exifr_parse exifr_gps fromLonLat
           initialPage (reachable_initial _ _ _ _)).
  exists (Some (<["Make" := JString "Nikon"]> ∅)),
    (Some {| gps_latitude := Some lat_paris; gps_longitude := Some lon_paris |}).
  repeat split.
Defined.

Lemma parse_failure_contained_witness :
  firstFile (Some [corrupt]) = Some corrupt
  ∧ parseFailure exifr_parse exifr_gps corrupt
  ∧ ∃ q log, handleFileChange' (Some [corrupt]) photoPage = (q, log, Returned tt)
             ∧ metadata q = errorIndicator ∧ gpsData q = None
             ∧ length (filter (λ c, c = CallParse) log) = 1.
Proof.
  assert (parseFailure exifr_parse exifr_gps corrupt) as Hfail.
  { left. by exists (JString "Unknown file format"). }
  split; [reflexivity|]. split; [exact Hfail|].
  apply (parse_failure_contained createObjectURL exifr_parse exifr_gps fromLonLat
           (Some [corrupt]) corrupt photoPage eq_refl Hfail).
Defined.

Lemma gps_validity_witness :
  exifr_parse nullIsland
    = Returned (Some (<["latitude" := JNumber (S754_zero false)]>
                     (<["longitude" := JNumber (S754_zero false)]> ∅)))
  ∧ exifr_gps nullIsland
    = Returned (Some {| gps_latitude := Some (S754_zero false);
                        gps_longitude := Some (S754_zero false) |})
  ∧ gpsData (parseAndShow' nullIsland photoPage).1.1 = None.
Proof.
  split; [reflexivity|]. split; [reflexivity|].
  destruct (gps_validity createObjectURL exifr_parse exifr_gps fromLonLat
              nullIsland photoPage _ _ eq_refl eq_refl) as (_ & Hzero & _).
  apply Hzero.
  right. eexists. split; [reflexivity|]. by left.
Defined.

Lemma teardown_on_exit_witness :
  reachable' photoPage
  ∧ mapInstance photoPage = Some 0
  ∧ maps (unmount photoPage) = alter (setTarget None) 0 (maps photoPage)
  ∧ mapInstance (unmount photoPage) = None
  ∧ liveMaps (unmount photoPage) = [].
Proof.
  split; [apply reachable_photoPage|]. split; [reflexivity|].
  apply (teardown_on_exit createObjectURL exifr_parse exifr_gps fromLonLat
           photoPage 0 reachable_photoPage eq_refl).
Defined.

Lemma map_construction_witness :
  reachable' initialPage
  ∧ exifr_parse photo = Returned (Some photoTags)
  ∧ exifr_gps photo
    = Returned (Some {| gps_latitude := Some lat_sf; gps_longitude := Some lon_sf |})
  ∧ ToBoolean lat_sf = true ∧ ToBoolean lon_sf = true
  ∧ gpsData (step' (Settled photo) initialPage)
    = Some {| latitude := lat_sf; longitude := lon_sf |}.
Proof.
  split; [apply reachable_initial|].
  do 4 (split; [reflexivity|]).
  apply (map_construction createObjectURL exifr_parse exifr_gps fromLonLat
           initialPage photo _ lat_sf lon_sf (reachable_initial _ _ _ _)
           eq_refl eq_refl eq_refl eq_refl).
Defined.

Lemma no_file_no_op_witness :
  firstFile (Some ([] : list File)) = None
  ∧ handleFileChange' (Some []) photoPage = (photoPage, [], Returned tt).
Proof.
  split; [reflexivity|].
  apply (no_file_no_op createObjectURL exifr_parse exifr_gps fromLonLat
           (Some []) photoPage eq_refl).
Defined.

Lemma preview_survives_failure_witness :
  firstFile (Some [corrupt]) = Some corrupt
  ∧ parseFailure exifr_parse exifr_gps corrupt
  ∧ imageSrc (select' (Some [corrupt]) photoPage)
    = Some (createObjectURL corrupt (objectURLs photoPage)).
Proof.
  assert (parseFailure exifr_parse exifr_gps corrupt) as Hfail.
  { left. by exists (JString "Unknown file format"). }
  split; [reflexivity|]. split; [exact Hfail|].
  apply (preview_survives_failure createObjectURL exifr_parse exifr_gps fromLonLat
           (Some [corrupt]) corrupt photoPage eq_refl Hfail).
Defined.

Lemma no_exif_no_fault_witness :
  firstFile (Some [plain]) = Some plain
  ∧ exifr_parse plain = Returned None
  ∧ exifr_gps plain = Returned None
  ∧ acceptGps None = None
  ∧ metadata (select' (Some [plain]) photoPage) = ∅
  ∧ metadata (select' (Some [plain]) photoPage) !! "error" = None
  ∧ gpsData (select' (Some [plain]) photoPage) = None.
Proof.
  do 4 (split; [reflexivity|]).
  apply (no_exif_no_fault createObjectURL exifr_parse exifr_gps fromLonLat
           (Some [plain]) plain photoPage None eq_refl eq_refl eq_refl eq_refl).
Defined.

End SampleRuns.


(** * Further properties *)

(** ** The filter as an operation on objects *)

(** X1. The filter is the removal of the two keys: it gives the object
    with 'thumbnail' and then 'MakerNote' deleted. *)
Theorem filterMetadata_delete (o : JsObject) :
  filterMetadata o = delete "MakerNote" (delete "thumbnail" o).
Proof.
  apply map_eq. intros k.
  rewrite filterMetadata_lookup, !lookup_delete.
  destruct (decide ("MakerNote" = k)) as [<-|Hm].
  - by rewrite decide_True by auto.
  - destruct (decide ("thumbnail" = k)) as [<-|Ht].
    + by rewrite decide_True by auto.
    + rewrite decide_False; [done|]. intros [->| ->]; done.
Qed.

(** X2. The number of entries shown is the number parsed, less one for
    each of 'MakerNote' and 'thumbnail' that the parsed object holds. *)
Theorem filterMetadata_size (o : JsObject) :
  size o =
    size (filterMetadata o)
    + match o !! "MakerNote" with Some _ => 1 | None => 0 end
    + match o !! "thumbnail" with Some _ => 1 | None => 0 end.
Proof.
  rewrite filterMetadata_delete, !map_size_delete.
  rewrite lookup_delete_ne by done.
  destruct (o !! "MakerNote") as [vm|] eqn:Hm, (o !! "thumbnail") as [vt|] eqn:Ht;
    simpl; try lia.
  - assert (2 ≤ size o); [|lia].
    rewrite <- (insert_id o "MakerNote" vm), <- (insert_delete_eq o) by done.
    rewrite map_size_insert_None by apply lookup_delete_eq.
    assert (delete "MakerNote" o !! "thumbnail" = Some vt) as Hd
      by by rewrite lookup_delete_ne.
    rewrite <- (insert_id _ "thumbnail" vt Hd), <- insert_delete_eq.
    rewrite map_size_insert_None by apply lookup_delete_eq. lia.
  - assert (size o ≠ 0); [|lia].
    intros H0. apply map_size_empty_inv in H0. subst.
    by rewrite lookup_empty in Hm.
  - assert (size o ≠ 0); [|lia].
    intros H0. apply map_size_empty_inv in H0. subst.
    by rewrite lookup_empty in Ht.
Qed.

(** X3. The filter returns its argument unchanged exactly when the
    object has neither a 'MakerNote' nor a 'thumbnail' key. *)
Theorem filterMetadata_fixed (o : JsObject) :
  filterMetadata o = o ↔ o !! "MakerNote" = None ∧ o !! "thumbnail" = None.
Proof.
  split.
  - intros Heq. split; rewrite <- Heq, filterMetadata_lookup;
      by rewrite decide_True by auto.
  - intros [Hm Ht]. apply map_eq. intros k.
    rewrite filterMetadata_lookup. case_decide as Hk; [|done].
    by destruct Hk as [-> | ->].
Qed.

(** ** The handler and the page, further *)

Section Further.

Context {File : Type}.
Variable createObjectURL : File → nat → string.
Variable exifr_parse : File → Outcome (option JsObject).
Variable exifr_gps : File → Outcome (option GpsOutput).
Variable fromLonLat : list number → list number.

Local Abbreviation fileIntake := (fileIntake createObjectURL).
Local Abbreviation parseAndShow := (parseAndShow exifr_parse exifr_gps).
Local Abbreviation handleFileChange :=
  (handleFileChange createObjectURL exifr_parse exifr_gps).
Local Abbreviation parseFailure := (parseFailure exifr_parse exifr_gps).
Local Abbreviation newMap := (newMap fromLonLat).
Local Abbreviation commit := (commit fromLonLat).
Local Abbreviation settled := (settled fromLonLat).
Local Abbreviation handled := (handled createObjectURL exifr_parse exifr_gps).
Local Abbreviation instants :=
  (instants createObjectURL exifr_parse exifr_gps fromLonLat).
Local Abbreviation step := (step createObjectURL exifr_parse exifr_gps fromLonLat).
Local Abbreviation run := (run createObjectURL exifr_parse exifr_gps fromLonLat).
Local Abbreviation select :=
  (select createObjectURL exifr_parse exifr_gps fromLonLat).
Local Abbreviation reachable :=
  (reachable createObjectURL exifr_parse exifr_gps fromLonLat).

(** What the part of the handler after the awaits does, in all cases. *)
Lemma parseAndShow_cases file p :
  parseAndShow file p =
    match exifr_parse file with
    | Thrown _ =>
        (withGpsData None (withMetadata errorIndicator p),
         [CallParse; CallConsoleError], Returned tt)
    | Returned o =>
        match exifr_gps file with
        | Thrown _ =>
            (withGpsData None (withMetadata errorIndicator p),
             [CallParse; CallConsoleLog; CallGps; CallConsoleError], Returned tt)
        | Returned g =>
            (withGpsData (acceptGps g) (withMetadata (filtered o) p),
             [CallParse; CallConsoleLog; CallGps], Returned tt)
        end
    end.
Proof.
  destruct (exifr_parse file) as [o|e] eqn:Ho.
  - destruct (exifr_gps file) as [g|e] eqn:Hg.
    + by apply parseAndShow_ok.
    + by eapply parseAndShow_gps_thrown.
  - by eapply parseAndShow_parse_thrown.
Qed.

(** X4. The handler never throws: whatever the event carries and whatever
    the libraries answer, reject or return, it returns normally. *)
Theorem handleFileChange_never_throws files p :
  (handleFileChange files p).2 = Returned tt.
Proof.
  destruct (firstFile files) as [file|] eqn:Hf.
  - rewrite (handleFileChange_file _ _ _ files file p Hf), parseAndShow_cases.
    by destruct (exifr_parse file), (exifr_gps file).
  - unfold handleFileChange. by rewrite Hf.
Qed.

(** X5. The calls one run of the handler makes on a file, in order: one
    object URL, one [exifr.parse]; if that rejects, [console.error] and
    no [exifr.gps]; otherwise [console.log] and one [exifr.gps], followed
    by [console.error] only if that rejects. *)
Theorem handleFileChange_calls files file p :
  firstFile files = Some file →
  (handleFileChange files p).1.2 =
    CallCreateObjectURL :: CallParse ::
      match exifr_parse file with
      | Thrown _ => [CallConsoleError]
      | Returned _ =>
          CallConsoleLog :: CallGps ::
            match exifr_gps file with
            | Thrown _ => [CallConsoleError]
            | Returned _ => []
            end
      end.
Proof.
  intros Hf.
  rewrite (handleFileChange_file _ _ _ files file p Hf), parseAndShow_cases.
  by destruct (exifr_parse file), (exifr_gps file).
Qed.

(** X6. After a selection on which both calls resolve, the page shows the
    filtered tags of that file, its accepted coordinate and its preview;
    nothing of the metadata or coordinate shown before remains. *)
Theorem success_replaces_state files file p o g :
  firstFile files = Some file →
  exifr_parse file = Returned o →
  exifr_gps file = Returned g →
  metadata (select files p) = filterMetadata (orEmpty o)
  ∧ gpsData (select files p) = acceptGps g
  ∧ imageSrc (select files p) = Some (createObjectURL file (objectURLs p)).
Proof.
  intros Hf Ho Hg.
  rewrite (select_file _ _ _ _ files file p Hf).
  destruct (commit_state fromLonLat
              (parseAndShow file (commit (fileIntake file p).1.1)).1.1)
    as (-> & -> & -> & _).
  rewrite (parseAndShow_ok _ _ file _ o g Ho Hg).
  repeat split.
  change (imageSrc (commit (fileIntake file p).1.1)
          = Some (createObjectURL file (objectURLs p))).
  by destruct (commit_state fromLonLat (fileIntake file p).1.1) as (_ & -> & _).
Qed.

(** X7. While a file is being parsed (the handler has run up to its first
    [await]), a page at rest has only a new preview: the metadata, the
    coordinate and the map of the file selected before stay as they
    were. *)
Theorem parsing_keeps_display files file p :
  reachable p →
  firstFile files = Some file →
  step (Change files) p =
    withImageSrc (Some (createObjectURL file (objectURLs p)))
      (withObjectURLs (S (objectURLs p)) p).
Proof.
  intros Hp Hf. unfold step. simpl. rewrite Hf, fileIntake_eq. simpl.
  pose proof (reachable_settled _ _ _ _ p Hp) as Hs.
  by destruct (commit_same fromLonLat p
                 (withImageSrc (Some (createObjectURL file (objectURLs p)))
                    (withObjectURLs (S (objectURLs p)) p)) Hs)
    as (_ & _ & -> & _); try done; apply Hs.
Qed.

Lemma step_Settled_state file p :
  metadata (step (Settled file) p) = metadata (parseAndShow file p).1.1
  ∧ gpsData (step (Settled file) p) = gpsData (parseAndShow file p).1.1
  ∧ imageSrc (step (Settled file) p) = imageSrc p.
Proof.
  unfold step.
  destruct (commit_state fromLonLat (handled (Settled file) p).1.1)
    as (-> & -> & -> & _).
  repeat split. simpl. rewrite parseAndShow_cases.
  by destruct (exifr_parse file), (exifr_gps file).
Qed.

Lemma step_Change_file file p :
  imageSrc (step (Change (Some [file])) p)
    = Some (createObjectURL file (objectURLs p))
  ∧ objectURLs (step (Change (Some [file])) p) = S (objectURLs p).
Proof.
  unfold step.
  destruct (commit_state fromLonLat (handled (Change (Some [file])) p).1.1)
    as (_ & -> & _ & ->).
  done.
Qed.

(** X8. Two selections that overlap: [fa] is selected, then [fb], and the
    calls on [fb] settle before those on [fa]. The page ends with the
    preview of [fb] under the metadata and the coordinate of [fa]. *)
Theorem last_settled_wins fa fb p o g :
  exifr_parse fa = Returned o →
  exifr_gps fa = Returned g →
  let q := run [Change (Some [fa]); Change (Some [fb]); Settled fb; Settled fa] p in
  imageSrc q = Some (createObjectURL fb (S (objectURLs p)))
  ∧ metadata q = filtered o
  ∧ gpsData q = acceptGps g.
Proof.
  intros Ho Hg q.
  change q with
    (step (Settled fa)
       (step (Settled fb)
          (step (Change (Some [fb])) (step (Change (Some [fa])) p)))).
  set (p1 := step (Change (Some [fa])) p).
  set (p2 := step (Change (Some [fb])) p1).
  set (p3 := step (Settled fb) p2).
  destruct (step_Settled_state fa p3) as (-> & -> & ->).
  rewrite (parseAndShow_ok _ _ fa p3 o g Ho Hg).
  repeat split.
  unfold p3. destruct (step_Settled_state fb p2) as (_ & _ & ->).
  unfold p2. destruct (step_Change_file fb p1) as (-> & _).
  unfold p1. by destruct (step_Change_file fa p) as (_ & ->).
Qed.

(** X9. Object URLs: one is created for each event that carries a file,
    none otherwise, and the count never goes down (none is revoked). *)
Theorem objectURLs_step ev p :
  objectURLs (step ev p) =
    objectURLs p
    + match ev with
      | Change files => match firstFile files with Some _ => 1 | None => 0 end
      | Settled _ => 0
      end.
Proof.
  unfold step.
  destruct (commit_state fromLonLat (handled ev p).1.1) as (_ & _ & _ & ->).
  destruct ev as [files|file]; simpl.
  - destruct (firstFile files); simpl; lia.
  - rewrite parseAndShow_cases.
    destruct (exifr_parse file), (exifr_gps file); simpl; lia.
Qed.

(** X10. Removing the component from any state the page can reach leaves
    no live map and no map held, and the three state cells as they
    were. *)
Theorem unmount_no_live_map p :
  reachable p →
  liveMaps (unmount p) = [] ∧ mapInstance (unmount p) = None
  ∧ length (maps (unmount p)) = length (maps p)
  ∧ metadata (unmount p) = metadata p ∧ imageSrc (unmount p) = imageSrc p
  ∧ gpsData (unmount p) = gpsData p.
Proof.
  intros Hp. destruct (reachable_settled _ _ _ _ p Hp) as [_ Hs].
  unfold unmount, cleanup, liveMaps.
  destruct (gpsData p) as [g|] eqn:Hg.
  - destruct Hs as (el & old & _ & Hm & Hold & -> & ->). simpl.
    rewrite Hm, alter_last. repeat split.
    + apply filter_torn. by apply torn_snoc.
    + by rewrite !length_app.
  - destruct Hs as (_ & Hi & -> & Hall). repeat split; try done.
    by apply filter_torn.
Qed.

(** X11. A map that has been torn down is never bound again, and keeps
    its address: at every instant of every event it is still there,
    without a target. *)
Theorem torn_stays_torn p ev x b m :
  reachable p →
  maps p !! b = Some m → torn m →
  x ∈ instants ev p →
  ∃ m', maps x !! b = Some m' ∧ torn m'.
Proof.
  intros Hp Hb Hm Hx.
  pose proof (reachable_settled _ _ _ _ p Hp) as Hs.
  assert (∀ a, ∃ m', alter (setTarget None) a (maps p) !! b = Some m' ∧ torn m')
    as Halter.
  { intros a. destruct (decide (a = b)) as [->|Hne].
    - exists (setTarget None m).
      by rewrite list_lookup_alter, Hb, decide_True by done.
    - exists m. by rewrite list_lookup_alter_ne. }
  destruct (instants_maps _ _ _ _ ev p x Hs Hx) as [->|[->|[new ->]]].
  - by exists m.
  - destruct (mapInstance p) as [a|]; [apply Halter|by exists m].
  - destruct (mapInstance p) as [a|].
    + destruct (Halter a) as (m' & Hm' & Ht).
      exists m'. split; [by apply lookup_app_l_Some|done].
    + exists m. split; [by apply lookup_app_l_Some|done].
Qed.

(** X12. In every state the page can reach, the map shown is the map of
    the coordinate held: with a coordinate [g], the container is mounted,
    [mapInstance] holds the last map constructed, that map is
    [newMap g] bound to the container, and it is the only live one;
    without a coordinate, nothing is mounted, held or live. *)
Theorem live_map_matches_state p :
  reachable p →
  match gpsData p with
  | Some g =>
      ∃ el a, mapRef p = Some el ∧ mapInstance p = Some a
              ∧ S a = length (maps p)
              ∧ maps p !! a = Some (newMap g el)
              ∧ liveMaps p = [newMap g el]
  | None => mapRef p = None ∧ mapInstance p = None ∧ liveMaps p = []
  end.
Proof.
  intros Hp. pose proof (reachable_settled _ _ _ _ p Hp) as Hs.
  pose proof (liveMaps_settled fromLonLat p Hs) as Hl.
  destruct Hs as [_ Hs]. destruct (gpsData p) as [g|].
  - destruct Hs as (el & old & Hr & Hm & _ & Hi & _).
    exists el, (length old). rewrite Hr in Hl.
    repeat split; try done.
    + rewrite Hm, length_app. simpl. lia.
    + rewrite Hm, lookup_app_r by lia. by rewrite Nat.sub_diag.
  - destruct Hs as (Hr & Hi & _). done.
Qed.

End Further.

(** ** What is shown *)

Section Shown.

Context {File : Type}.
Variable createObjectURL : File → nat → string.
Variable exifr_parse : File → Outcome (option JsObject).
Variable exifr_gps : File → Outcome (option GpsOutput).
Variable fromLonLat : list number → list number.
Variable Number_toString : number → string.
Variable JSON_stringify : JsValue → string.
Variable Object_toString : JsValue → string.

Local Abbreviation fileIntake := (fileIntake createObjectURL).
Local Abbreviation parseAndShow := (parseAndShow exifr_parse exifr_gps).
Local Abbreviation parseFailure := (parseFailure exifr_parse exifr_gps).
Local Abbreviation commit := (commit fromLonLat).
Local Abbreviation select :=
  (select createObjectURL exifr_parse exifr_gps fromLonLat).
Local Abbreviation reachable :=
  (reachable createObjectURL exifr_parse exifr_gps fromLonLat).
Local Abbreviation renderValue :=
  (renderValue Number_toString JSON_stringify Object_toString).
Local Abbreviation renderItems :=
  (renderItems Number_toString JSON_stringify Object_toString).
Local Abbreviation metadataBlock :=
  (metadataBlock Number_toString JSON_stringify Object_toString).
Local Abbreviation Home_jsx :=
  (Home_jsx Number_toString JSON_stringify Object_toString).

(** The three state cells after a failing selection. *)
Lemma select_failure_state files file p :
  firstFile files = Some file →
  parseFailure file →
  metadata (select files p) = errorIndicator
  ∧ gpsData (select files p) = None
  ∧ imageSrc (select files p) = Some (createObjectURL file (objectURLs p)).
Proof.
  intros Hf Hfail.
  rewrite (select_file _ _ _ _ files file p Hf).
  destruct (commit_state fromLonLat
              (parseAndShow file (commit (fileIntake file p).1.1)).1.1)
    as (-> & -> & -> & _).
  destruct (parseAndShow_failure _ _ file (commit (fileIntake file p).1.1) Hfail)
    as (log & -> & _).
  repeat split.
  change (imageSrc (commit (fileIntake file p).1.1)
          = Some (createObjectURL file (objectURLs p))).
  by destruct (commit_state fromLonLat (fileIntake file p).1.1) as (_ & -> & _).
Qed.

(** X13. After a selection whose parse fails, whatever was shown before,
    the page shows the title, the file input, the preview of the file,
    and a metadata list with the single item
    'error: Failed to read EXIF metadata'; no location section. *)
Theorem shown_after_failure files file p :
  firstFile files = Some file →
  parseFailure file →
  createObjectURL file (objectURLs p) ≠ "" →
  Home_jsx (select files p) =
    [ Title; FileInput;
      ImagePreview (createObjectURL file (objectURLs p));
      MetadataSection [("error", "Failed to read EXIF metadata")] ].
Proof.
  intros Hf Hfail Hurl.
  destruct (select_failure_state files file p Hf Hfail) as (Hm & Hg & Hi).
  unfold Home_jsx, previewBlock, locationBlock, metadataBlock, renderItems, entries.
  rewrite Hm, Hg, Hi, decide_False by done.
  unfold errorIndicator. rewrite map_to_list_singleton. reflexivity.
Qed.

(** X14. The metadata section is left out exactly when the metadata is
    empty; in particular after a selection on which both calls resolve
    and the parser gave nothing, or nothing but 'MakerNote' and
    'thumbnail'. *)
Theorem no_metadata_section files file p o g :
  firstFile files = Some file →
  exifr_parse file = Returned o →
  exifr_gps file = Returned g →
  (∀ q, metadataBlock q = [] ↔ metadata q = ∅)
  ∧ ((∀ k, is_Some (orEmpty o !! k) → k = "MakerNote" ∨ k = "thumbnail") →
     metadataBlock (select files p) = []).
Proof.
  intros Hf Ho Hg.
  assert (∀ q, metadataBlock q = [] ↔ metadata q = ∅) as Hiff.
  { intros q. unfold metadataBlock, entries. rewrite length_map_to_list.
    split.
    - case_decide as Hd; [done|]. intros _. apply map_size_empty_inv. lia.
    - intros ->. by rewrite map_size_empty. }
  split; [exact Hiff|].
  intros Honly. apply Hiff.
  rewrite (select_file _ _ _ _ files file p Hf).
  destruct (commit_state fromLonLat
              (parseAndShow file (commit (fileIntake file p).1.1)).1.1)
    as (-> & _).
  rewrite (parseAndShow_ok _ _ file _ o g Ho Hg).
  change (filterMetadata (orEmpty o) = ∅).
  apply map_eq. intros k.
  rewrite filterMetadata_lookup, lookup_empty.
  case_decide as Hk; [done|].
  destruct (orEmpty o !! k) eqn:Hl; [|done].
  destruct Hk. apply Honly. by rewrite Hl.
Qed.

(** X15. In every state the page can reach, the location section is
    shown if and only if a map is live. *)
Theorem location_shown_iff_live p :
  reachable p →
  LocationSection ∈ Home_jsx p ↔ ∃ m, m ∈ liveMaps p.
Proof.
  intros Hp. pose proof (reachable_settled _ _ _ _ p Hp) as Hs.
  rewrite (liveMaps_settled fromLonLat p Hs).
  unfold Home_jsx, previewBlock, locationBlock, metadataBlock.
  rewrite !elem_of_app, !elem_of_cons, elem_of_nil.
  destruct Hs as [_ Hs]. destruct (gpsData p) as [g|].
  - destruct Hs as (el & old & -> & _). split.
    + intros _. eexists. by apply list_elem_of_singleton.
    + intros _. right. right. left. by apply list_elem_of_singleton.
  - split.
    + intros [[?|[?|[]]]|[Hpre|[Hloc|Hmd]]]; try done.
      * destruct (imageSrc p) as [url|]; [|by apply elem_of_nil in Hpre].
        case_decide; [by apply elem_of_nil in Hpre|].
        by apply list_elem_of_singleton in Hpre.
      * by apply elem_of_nil in Hloc.
      * case_decide; [|by apply elem_of_nil in Hmd].
        by apply list_elem_of_singleton in Hmd.
    + intros [m Hm]. by apply elem_of_nil in Hm.
Qed.

(** X16. The metadata list has one item per entry of the metadata, each
    key once: an item [(k, t)] is listed exactly when the metadata holds
    some [v] at [k] and [t] is the text of [v]. *)
Theorem renderItems_entries (o : JsObject) (k t : string) :
  ((k, t) ∈ renderItems o ↔ ∃ v, o !! k = Some v ∧ t = renderValue v)
  ∧ NoDup (renderItems o).*1
  ∧ length (renderItems o) = size o.
Proof.
  unfold renderItems, entries. repeat split.
  - intros Hin. apply list_elem_of_fmap in Hin as ([k' v] & [= -> ->] & Hkv).
    exists v. split; [by apply elem_of_map_to_list|done].
  - intros (v & Hv & ->). apply list_elem_of_fmap.
    exists (k, v). split; [done|]. by apply elem_of_map_to_list.
  - rewrite <- list_fmap_compose.
    rewrite (list_fmap_ext _ fst (map_to_list o) ) by done.
    apply NoDup_fst_map_to_list.
  - by rewrite length_fmap, length_map_to_list.
Qed.

End Shown.

(** ** The sample document, run further *)

Section SampleRunsFurther.

Import Sample SampleView.

Local Abbreviation handleFileChange' :=
  (handleFileChange createObjectURL exifr_parse exifr_gps).
Local Abbreviation step' := (step createObjectURL exifr_parse exifr_gps fromLonLat).
Local Abbreviation run' := (run createObjectURL exifr_parse exifr_gps fromLonLat).
Local Abbreviation select' := (select createObjectURL exifr_parse exifr_gps fromLonLat).
Local Abbreviation instants' :=
  (instants createObjectURL exifr_parse exifr_gps fromLonLat).
Local Abbreviation reachable' :=
  (reachable createObjectURL exifr_parse exifr_gps fromLonLat).
Local Abbreviation Home_jsx' :=
  (Home_jsx Number_toString JSON_stringify Object_toString).
Local Abbreviation metadataBlock' :=
  (metadataBlock Number_toString JSON_stringify Object_toString).

(** The page after the photo, and after the photo and then Paris. *)
Local Abbreviation photoPage := (select' (Some [photo]) initialPage).
Local Abbreviation parisPage := (select' (Some [paris]) photoPage).

Lemma reachable_parisPage : reachable' parisPage.
Proof. do 2 apply reachable_select. apply reachable_initial. Qed.

(** The photo's page as shown: preview, location, and the three tags
    left by the filter. *)
Example shown_photo :
  ∃ items,
    Home_jsx' photoPage = [Title; FileInput; ImagePreview "blob:0";
                           LocationSection; MetadataSection items]
    ∧ length items = 3
    ∧ ("Make", "Canon") ∈ items.
Proof.
  eexists. split; [by vm_compute|]. split; [reflexivity|].
  repeat first [apply list_elem_of_here | apply list_elem_of_further].
Qed.

Lemma handleFileChange_calls_witness :
  firstFile (Some [corrupt; photo]) = Some corrupt
  ∧ (handleFileChange' (Some [corrupt; photo]) photoPage).1.2
    = [CallCreateObjectURL; CallParse; CallConsoleError].
Proof.
  split; [reflexivity|].
  apply (handleFileChange_calls createObjectURL exifr_parse exifr_gps
           (Some [corrupt; photo]) corrupt photoPage eq_refl).
Defined.

Lemma success_replaces_state_witness :
  firstFile (Some [paris]) = Some paris
  ∧ exifr_parse paris = Returned (Some (<["Make" := JString "Nikon"]> ∅))
  ∧ exifr_gps paris
    = Returned (Some {| gps_latitude := Some lat_paris;
                        gps_longitude := Some lon_paris |})
  ∧ metadata parisPage = filterMetadata (<["Make" := JString "Nikon"]> ∅)
  ∧ gpsData parisPage
    = acceptGps (Some {| gps_latitude := Some lat_paris;
                         gps_longitude := Some lon_paris |})
  ∧ imageSrc parisPage = Some (createObjectURL paris (objectURLs photoPage)).
Proof.
  do 3 (split; [reflexivity|]).
  apply (success_replaces_state createObjectURL exifr_parse exifr_gps fromLonLat
           (Some [paris]) paris photoPage _ _ eq_refl eq_refl eq_refl).
Defined.

Lemma parsing_keeps_display_witness :
  reachable' photoPage
  ∧ firstFile (Some [corrupt]) = Some corrupt
  ∧ step' (Change (Some [corrupt])) photoPage
    = withImageSrc (Some (createObjectURL corrupt (objectURLs photoPage)))
        (withObjectURLs (S (objectURLs photoPage)) photoPage).
Proof.
  split; [apply reachable_select, reachable_initial|]. split; [reflexivity|].
  apply (parsing_keeps_display createObjectURL exifr_parse exifr_gps fromLonLat
           (Some [corrupt]) corrupt photoPage
           (reachable_select _ _ _ _ _ _ (reachable_initial _ _ _ _)) eq_refl).
Defined.

Lemma last_settled_wins_witness :
  exifr_parse photo = Returned (Some photoTags)
  ∧ exifr_gps photo
    = Returned (Some {| gps_latitude := Some lat_sf; gps_longitude := Some lon_sf |})
  ∧ (let q := run' [Change (Some [photo]); Change (Some [paris]);
                    Settled paris; Settled photo] initialPage in
     imageSrc q = Some (createObjectURL paris 1)
     ∧ metadata q = filtered (Some photoTags)
     ∧ gpsData q
       = acceptGps (Some {| gps_latitude := Some lat_sf;
                            gps_longitude := Some lon_sf |})).
Proof.
  do 2 (split; [reflexivity|]).
  apply (last_settled_wins createObjectURL exifr_parse exifr_gps fromLonLat
           photo paris initialPage _ _ eq_refl eq_refl).
Defined.

Lemma unmount_no_live_map_witness :
  reachable' parisPage
  ∧ liveMaps (unmount parisPage) = []
  ∧ mapInstance (unmount parisPage) = None
  ∧ length (maps (unmount parisPage)) = length (maps parisPage)
  ∧ metadata (unmount parisPage) = metadata parisPage
  ∧ imageSrc (unmount parisPage) = imageSrc parisPage
  ∧ gpsData (unmount parisPage) = gpsData parisPage.
Proof.
  split; [apply reachable_parisPage|].
  apply (unmount_no_live_map createObjectURL exifr_parse exifr_gps fromLonLat
           parisPage reachable_parisPage).
Defined.

Lemma torn_stays_torn_witness :
  reachable' parisPage
  ∧ maps parisPage !! 0
    = Some (setTarget None
              (newMap fromLonLat {| latitude := lat_sf; longitude := lon_sf |} 0))
  ∧ torn (setTarget None
            (newMap fromLonLat {| latitude := lat_sf; longitude := lon_sf |} 0))
  ∧ step' (Settled photo) parisPage ∈ instants' (Settled photo) parisPage
  ∧ ∃ m', maps (step' (Settled photo) parisPage) !! 0 = Some m' ∧ torn m'.
Proof.
  assert (step' (Settled photo) parisPage ∈ instants' (Settled photo) parisPage)
    as Hin.
  { unfold instants. do 3 apply list_elem_of_further. apply list_elem_of_here. }
  split; [apply reachable_parisPage|]. split; [reflexivity|].
  split; [reflexivity|]. split; [exact Hin|].
  apply (torn_stays_torn createObjectURL exifr_parse exifr_gps fromLonLat
           parisPage (Settled photo) _ 0 _ reachable_parisPage eq_refl eq_refl Hin).
Defined.

Lemma live_map_matches_state_witness :
  reachable' parisPage
  ∧ match gpsData parisPage with
    | Some g =>
        ∃ el a, mapRef parisPage = Some el ∧ mapInstance parisPage = Some a
                ∧ S a = length (maps parisPage)
                ∧ maps parisPage !! a = Some (newMap fromLonLat g el)
                ∧ liveMaps parisPage = [newMap fromLonLat g el]
    | None => mapRef parisPage = None ∧ mapInstance parisPage = None
              ∧ liveMaps parisPage = []
    end.
Proof.
  split; [apply reachable_parisPage|].
  apply (live_map_matches_state createObjectURL exifr_parse exifr_gps fromLonLat
           parisPage reachable_parisPage).
Defined.

Lemma shown_after_failure_witness :
  firstFile (Some [corrupt]) = Some corrupt
  ∧ parseFailure exifr_parse exifr_gps corrupt
  ∧ createObjectURL corrupt (objectURLs parisPage) ≠ ""
  ∧ Home_jsx' (select' (Some [corrupt]) parisPage)
    = [ Title; FileInput;
        ImagePreview (createObjectURL corrupt (objectURLs parisPage));
        MetadataSection [("error", "Failed to read EXIF metadata")] ].
Proof.
  assert (parseFailure exifr_parse exifr_gps corrupt) as Hfail.
  { left. by exists (JString "Unknown file format"). }
  assert (createObjectURL corrupt (objectURLs parisPage) ≠ "") as Hurl.
  { vm_compute. discriminate. }
  split; [reflexivity|]. split; [exact Hfail|]. split; [exact Hurl|].
  apply (shown_after_failure createObjectURL exifr_parse exifr_gps fromLonLat
           Number_toString JSON_stringify Object_toString
           (Some [corrupt]) corrupt parisPage eq_refl Hfail Hurl).
Defined.

Lemma no_metadata_section_witness :
  firstFile (Some [plain]) = Some plain
  ∧ exifr_parse plain = Returned None
  ∧ exifr_gps plain = Returned None
  ∧ metadataBlock' (select' (Some [plain]) parisPage) = [].
Proof.
  do 3 (split; [reflexivity|]).
  destruct (no_metadata_section createObjectURL exifr_parse exifr_gps fromLonLat
              Number_toString JSON_stringify Object_toString
              (Some [plain]) plain parisPage None None eq_refl eq_refl eq_refl)
    as (_ & Hempty).
  apply Hempty. intros k [v Hv]. simpl in Hv. by rewrite lookup_empty in Hv.
Defined.

Lemma location_shown_iff_live_witness :
  reachable' parisPage
  ∧ (LocationSection ∈ Home_jsx' parisPage ↔ ∃ m, m ∈ liveMaps parisPage).
Proof.
  split; [apply reachable_parisPage|].
  apply (location_shown_iff_live createObjectURL exifr_parse exifr_gps fromLonLat
           Number_toString JSON_stringify Object_toString
           parisPage reachable_parisPage).
Defined.

End SampleRunsFurther.
